(** * Incremental CSV ingestion of app/main.py

    A shallow embedding of [load_processed_files], [save_processed_files],
    [load_and_merge_csv_files] and the first lines of the script body of
    app/main.py, with the files the script touches made explicit as a
    [world] and the calls that leave a trace ([st.error], [to_pickle],
    [json.dump], ...) recorded as a log of [event]s.

    Library calls are modelled by their documented behaviour:
    - [DataFrame.sort_values] with the default [kind="quicksort"] returns a
      rearrangement of the rows that is ascending in the key with missing
      keys last; the order it leaves equal keys in is not fixed, so the
      development is parametric in a [SortValues] implementation; it raises
      when the key column holds date-times with a zone next to date-times
      without one, which cannot be compared;
    - [GroupBy.last] yields, per group and per column, the last value that is
      not missing;
    - [json.load]/[json.dump] and [read_pickle]/[to_pickle] are taken at the
      level of the value stored in the file: the text of the ledger file,
      its encoding and the way a number is written and read back are not
      modelled, and neither write fails once the ledger file has been
      loaded.

    Every name of the data directory is taken to be a file whose
    modification time [os.path.getmtime] can read. *)

From Stdlib Require Import ZArith QArith.
From stdpp Require Import base list sorting gmap strings.

Open Scope Z_scope.

(** ** Errors *)

(** The exceptions the modelled code can meet. *)
Inductive exn : Type :=
| OSError          (* open() on a path that cannot be opened *)
| ParserError      (* pd.read_csv on a text that is no table *)
| EmptyDataError   (* pd.read_csv on a file without columns *)
| UnicodeDecodeError  (* pd.read_csv on bytes that are no text *)
| KeyError         (* df["測定日"] on a frame without that column *)
| ValueError       (* pd.to_datetime on a text that is no date *)
| AttributeError   (* .copy() on a value that has none *)
| TypeError.       (* a date-time with a zone compared with one without *)

Inductive result (A : Type) : Type :=
| Return (a : A)
| Raise (e : exn).
Arguments Return {A} a.
Arguments Raise {A} e.

#[global] Instance result_ret : MRet result := λ A a, Return a.
#[global] Instance result_bind : MBind result := λ A B k m,
  match m with
  | Return a => k a
  | Raise e => Raise e
  end.

(** ** Frames *)

(** A date-time by its local reading, counted in seconds.  Whether it names
    a zone is kept apart, see [tz]. *)
Definition timestamp : Type := Z.

Definition SECONDS_PER_DAY : Z := 86400.

(** [Timestamp.date()]: the calendar day a date-time falls on. *)
Definition date (t : timestamp) : Z := t `div` SECONDS_PER_DAY.

(** A cell of a metric column: the decimal read from the file, or [None]
    for a missing value (NaN).  Metric values are carried, never computed
    on. *)
Abbreviation cell := (option Q).

(** One row of a frame after [pd.to_datetime]: the 測定日 column ([None] is
    NaT) and the remaining columns in frame order.  The frames of one run
    are taken over one list of columns: where a file lacks a column,
    [pd.concat] fills it with NaN. *)
Record row : Type := Row {
  measured : option timestamp;
  metrics : list cell
}.

(** A row of the deduplicated frame: the 日付のみ column that
    [groupby(..., as_index=False)] puts first, then the aggregated row. *)
Definition dataset : Type := list (Z * row).

(** ** Source files *)

(** A 測定日 cell as [pd.read_csv] leaves it: blank, or a text that
    [pd.to_datetime] reads as a date-time ([Some t]) or rejects ([None]),
    be it for what the text is or for not following the format of the
    texts before it. *)
Inductive ts_cell : Type :=
| TsBlank
| TsText (parsed : option timestamp).

Record csv_line : Type := CsvLine {
  raw_measured : ts_cell;
  raw_metrics : list cell
}.

(** Whether the date-times of a file name a UTC offset
    (2024-01-01 08:00:00+09:00) or none (2024-01-01 08:00:00). *)
Inductive tz : Type :=
| Naive
| Aware.

#[global] Instance tz_eq_dec : EqDecision tz.
Proof. solve_decision. Defined.

(** What a file of the data directory holds, as far as lines 74-75 can
    tell.  [Garbled e] is a file on which [pd.read_csv] raises [e]: a text
    that is no table, an empty file, bytes that are no text, a path that
    cannot be opened.  In a [ZonedTable] the date texts name a UTC offset,
    one and the same in the files of a directory, which [pd.to_datetime]
    keeps as the zone of the column. *)
Inductive csv_file : Type :=
| Garbled (e : exn)                        (* pd.read_csv raises e *)
| TableWithoutDate (lines : list (list cell))  (* no 測定日 in the header *)
| Table (lines : list csv_line)
| ZonedTable (lines : list csv_line).

Definition to_datetime (c : ts_cell) : result (option timestamp) :=
  match c with
  | TsBlank => Return None
  | TsText (Some t) => Return (Some t)
  | TsText None => Raise ValueError
  end.

Fixpoint to_datetime_all (lines : list csv_line) : result (list row) :=
  match lines with
  | [] => Return []
  | l :: lines' =>
      t ← to_datetime (raw_measured l);
      rest ← to_datetime_all lines';
      Return (Row t (raw_metrics l) :: rest)
  end.

(** Lines 74-75: [df = pd.read_csv(path)] followed by
    [df["測定日"] = pd.to_datetime(df["測定日"])]. *)
Definition read_csv_with_dates (f : csv_file) : result (list row) :=
  match f with
  | Garbled e => Raise e
  | TableWithoutDate _ => Raise KeyError
  | Table lines => to_datetime_all lines
  | ZonedTable lines => to_datetime_all lines
  end.

(** The zone of the date-times lines 74-75 make of a file. *)
Definition zone (f : csv_file) : tz :=
  match f with
  | ZonedTable _ => Aware
  | _ => Naive
  end.

(** The zone of each date-time in the 測定日 column of a frame read from a
    file of zone [z]; NaT has none. *)
Definition zones_of (z : tz) (df : list row) : list tz :=
  omap (λ r, (λ _, z) <$> measured r) df.

(** ** The ledger file *)

(** The value [json.load] returns, by shape: a list, an object (here with
    numeric values), or anything else (number, string, boolean, null). *)
Inductive json_value : Type :=
| JList
| JObject (d : gmap string Z)
| JScalar.

(** STATUS_FILE on disk. [Holds None] is a file that opens and on which
    [json.load] raises (read error, undecodable bytes, malformed JSON). *)
Inductive status_file : Type :=
| Missing
| Unopenable
| Holds (content : option json_value).

(** Lines 38-48. *)
Definition load_processed_files (f : status_file) : result json_value :=
  match f with
  | Missing => Return (JObject ∅)
  | Unopenable => Raise OSError
  | Holds None => Return (JObject ∅)
  | Holds (Some JList) => Return (JObject ∅)
  | Holds (Some data) => Return data
  end.

(** Lines 51-53. *)
Definition save_processed_files (file_dict : gmap string Z) (f : status_file)
  : result status_file :=
  match f with
  | Unopenable => Raise OSError
  | _ => Return (Holds (Some (JObject file_dict)))
  end.

(** ** The world and the trace *)

Record world : Type := World {
  STATUS_FILE : status_file;
  CACHE_DATA_FILE : option dataset;
  DATA_DIR : gmap string (Z * csv_file)   (* name ↦ (mtime, content) *)
}.

Inductive event : Type :=
| st_error_read (fname : string) (e : exn)   (* line 80 *)
| to_pickle (df : dataset)                   (* line 87 *)
| json_dump (file_dict : gmap string Z)      (* line 53 *)
| st_error_no_valid_data                     (* line 101 *)
| st_stop                                    (* line 102 *)
| st_success                                 (* line 105 *)
| st_info.                                   (* line 107 *)

Definition is_write (ev : event) : bool :=
  match ev with
  | to_pickle _ | json_dump _ => true
  | _ => false
  end.

(** ** Sorting *)

(** The order [sort_values] sorts 測定日 in: ascending, NaT last. *)
Definition ts_le (a b : option timestamp) : Prop :=
  match a, b with
  | Some x, Some y => x ≤ y
  | _, None => True
  | None, Some _ => False
  end.

#[global] Instance ts_le_dec : RelDecision ts_le.
Proof. intros [x|] [y|]; simpl; apply _. Defined.

(** The same order on the rows of a frame sorted by the column [key]. *)
Definition key_le {A : Type} (key : A → option timestamp) : relation A :=
  λ x y, ts_le (key x) (key y).

#[global] Instance key_le_dec {A : Type} (key : A → option timestamp) :
  RelDecision (key_le key).
Proof. intros x y. unfold key_le. apply _. Defined.

Class SortValues : Type := {
  sort_values : ∀ {A : Type}, (A → option timestamp) → list A → list A;
  sort_values_Permutation :
    ∀ (A : Type) (key : A → option timestamp) (l : list A),
      sort_values key l ≡ₚ l;
  sort_values_Sorted :
    ∀ (A : Type) (key : A → option timestamp) (l : list A),
      Sorted (key_le key) (sort_values key l)
}.

(** One implementation: merge sort. *)
Definition merge_sort_values {A : Type} (key : A → option timestamp)
  (l : list A) : list A :=
  merge_sort (key_le key) l.

(** Another one: merge sort of the frame read backwards.  It meets the same
    contract and leaves rows with equal keys in another order. *)
Definition backward_sort_values {A : Type} (key : A → option timestamp)
  (l : list A) : list A :=
  merge_sort (key_le key) (reverse l).

#[global] Instance ts_le_refl : Reflexive ts_le.
Proof. intros [x|]; simpl; [lia|done]. Qed.

#[global] Instance ts_le_trans : Transitive ts_le.
Proof. intros [x|] [y|] [z|]; simpl; try done; lia. Qed.

#[global] Instance ts_le_total : Total ts_le.
Proof. intros [x|] [y|]; simpl; try lia; auto. Qed.

#[global] Instance key_le_trans {A} (key : A → option timestamp) :
  Transitive (key_le key).
Proof. intros x y z. unfold key_le. apply ts_le_trans. Qed.

#[global] Instance key_le_total {A} (key : A → option timestamp) :
  Total (key_le key).
Proof. intros x y. unfold key_le. apply ts_le_total. Qed.

Definition merge_sorter : SortValues :=
  {| sort_values := @merge_sort_values;
     sort_values_Permutation := λ A key l,
       merge_sort_Permutation (key_le key) l;
     sort_values_Sorted := λ A key l,
       Sorted_merge_sort (key_le key) l |}.

Definition backward_sorter : SortValues :=
  {| sort_values := @backward_sort_values;
     sort_values_Permutation := λ A key l,
       Permutation_trans (merge_sort_Permutation (key_le key) (reverse l))
                         (reverse_Permutation l);
     sort_values_Sorted := λ A key l,
       Sorted_merge_sort (key_le key) (reverse l) |}.

(** ** Deduplication by day (lines 83-86) *)

(** Line 84: the 日付のみ column. *)
Definition with_date (df : list row) : list (option Z * row) :=
  map (λ r, (date <$> measured r, r)) df.

(** Column by column, the later value unless it is missing. *)
Fixpoint coalesce (prev cur : list cell) : list cell :=
  match cur with
  | [] => []
  | c :: cur' =>
      match c with
      | Some _ => c
      | None => hd None prev
      end :: coalesce (tl prev) cur'
  end.

Definition later_valid (prev cur : row) : row :=
  {| measured := match measured cur with
                 | Some t => Some t
                 | None => measured prev
                 end;
     metrics := coalesce (metrics prev) (metrics cur) |}.

(** [GroupBy.last] on one group: in every column, the last value that is not
    missing. *)
Definition last_valid (group : list row) : row :=
  foldl later_valid (Row None []) group.

(** The group keys: the distinct days, ascending; rows whose key is missing
    belong to no group. *)
Definition group_keys (df : list (option Z * row)) : list Z :=
  merge_sort Z.le (remove_dups (omap fst df)).

Definition group_of (d : Z) (df : list (option Z * row)) : list row :=
  map snd (filter (λ x, x.1 = Some d) df).

(** Line 85: [groupby("日付のみ", as_index=False).last()]. *)
Definition groupby_last (df : list (option Z * row)) : dataset :=
  map (λ d, (d, last_valid (group_of d df))) (group_keys df).

(** Lines 83-86. *)
Definition dedup_by_day `{SortValues} (merged_df : list row) : dataset :=
  let merged_df := sort_values measured merged_df in
  let merged_df := with_date merged_df in
  let deduped_df := groupby_last merged_df in
  sort_values (λ x, measured x.2) deduped_df.

(** ** The scan loop (lines 64-80) *)

(** [str.endswith]. *)
Definition endswith (s suffix : string) : bool :=
  (String.length suffix <=? String.length s)%nat
  && String.eqb
       (String.substring (String.length s - String.length suffix)
                  (String.length suffix) s)
       suffix.

(** The order [sorted] puts file names in. *)
Definition name_le : relation (string * (Z * csv_file)) :=
  λ a b, String.le a.1 b.1.

#[global] Instance name_le_dec : RelDecision name_le.
Proof. intros a b. unfold name_le. apply _. Defined.

(** [sorted(os.listdir(DATA_DIR))], each name with what [os.path.getmtime]
    and [pd.read_csv] will find under it.  The names of a directory are
    distinct, so the listing has one ascending order. *)
Definition sorted_listdir (dir : gmap string (Z * csv_file))
  : list (string * (Z * csv_file)) :=
  merge_sort name_le (map_to_list dir).

(** Line 70: [fname in processed and processed[fname] == mtime]. *)
Definition already_processed (processed : gmap string Z)
  (fname : string) (mtime : Z) : bool :=
  match processed !! fname with
  | Some t => t =? mtime
  | None => false
  end.

(** The variables of the loop and what it has shown so far.  The rows of
    [merged_df] carry their date-times by local reading; [zones] keeps the
    zone of each of them. *)
Record loop_state : Type := LoopState {
  merged_df : list row;
  updated_processed : gmap string Z;
  new_data_loaded : bool;
  shown : list event;
  zones : list tz
}.

(** Lines 73-80: the [try] block and its handler. *)
Definition try_file (st : loop_state) (fname : string) (mtime : Z)
  (content : csv_file) : loop_state :=
  match read_csv_with_dates content with
  | Return df =>
      {| merged_df := merged_df st ++ df;
         updated_processed := <[fname := mtime]> (updated_processed st);
         new_data_loaded := true;
         shown := shown st;
         zones := zones st ++ zones_of (zone content) df |}
  | Raise e =>
      {| merged_df := merged_df st;
         updated_processed := updated_processed st;
         new_data_loaded := new_data_loaded st;
         shown := shown st ++ [st_error_read fname e];
         zones := zones st |}
  end.

Definition loop_body (processed : gmap string Z) (st : loop_state)
  (entry : string * (Z * csv_file)) : loop_state :=
  let '(fname, (mtime, content)) := entry in
  if negb (endswith fname ".csv") then st
  else if already_processed processed fname mtime then st
  else try_file st fname mtime content.

(** Line 61: [processed.copy()] needs a dict; numbers, strings, booleans and
    null have no [copy].  ([load_processed_files] never returns a list.) *)
Definition dict_copy (data : json_value) : result (gmap string Z) :=
  match data with
  | JObject d => Return d
  | _ => Raise AttributeError
  end.

Definition scan (processed : gmap string Z) (w : world) : loop_state :=
  foldl (loop_body processed)
        {| merged_df := [];
           updated_processed := processed;
           new_data_loaded := false;
           shown := [];
           zones := [] |}
        (sorted_listdir (DATA_DIR w)).

(** ** The pipeline (lines 58-94) *)

Record run : Type := Run {
  df : dataset;
  is_new_data : bool;
  after : world;
  log : list event
}.

(** Whether a column holds date-times of both kinds. *)
Definition mixed (zs : list tz) : bool :=
  bool_decide (Naive ∈ zs ∧ Aware ∈ zs).

(** Line 83 stands outside the [try] block: to sort the 測定日 column its
    date-times are compared with one another, and one with a zone cannot be
    compared with one without. *)
Definition comparable (zs : list tz) : result () :=
  if mixed zs then Raise TypeError else Return ().

Definition load_and_merge_csv_files `{SortValues} (w : world) : result run :=
  data ← load_processed_files (STATUS_FILE w);
  processed ← dict_copy data;
  let st := scan processed w in
  if new_data_loaded st then
    comparable (zones st);;
    let deduped_df := dedup_by_day (merged_df st) in
    status ← save_processed_files (updated_processed st) (STATUS_FILE w);
    Return {| df := deduped_df;
              is_new_data := true;
              after := {| STATUS_FILE := status;
                          CACHE_DATA_FILE := Some deduped_df;
                          DATA_DIR := DATA_DIR w |};
              log := shown st ++ [to_pickle deduped_df;
                                  json_dump (updated_processed st)] |}
  else
    match CACHE_DATA_FILE w with
    | Some cached => Return {| df := cached; is_new_data := false;
                               after := w; log := shown st |}
    | None => Return {| df := []; is_new_data := false;
                        after := w; log := shown st |}
    end.

(** What the pipeline returns once the ledger is loaded, when it returns. *)
Definition outcome `{SortValues} (processed : gmap string Z) (w : world)
  : run :=
  let st := scan processed w in
  if new_data_loaded st then
    {| df := dedup_by_day (merged_df st);
       is_new_data := true;
       after := {| STATUS_FILE := Holds (Some (JObject (updated_processed st)));
                   CACHE_DATA_FILE := Some (dedup_by_day (merged_df st));
                   DATA_DIR := DATA_DIR w |};
       log := shown st ++ [to_pickle (dedup_by_day (merged_df st));
                           json_dump (updated_processed st)] |}
  else
    {| df := default [] (CACHE_DATA_FILE w);
       is_new_data := false;
       after := w;
       log := shown st |}.

(** ** The script body (lines 98-107) *)

(** What the page shows after the pipeline, and the frame handed to the
    analysis below line 107, if the script gets there. *)
Record page : Type := Page {
  messages : list event;
  analysed : option dataset;
  disk : world
}.

(** [DataFrame.empty]. *)
Definition empty (d : dataset) : bool :=
  match d with
  | [] => true
  | _ :: _ => false
  end.

Definition main `{SortValues} (w : world) : result page :=
  r ← load_and_merge_csv_files w;
  if empty (df r)
  then Return {| messages := log r ++ [st_error_no_valid_data; st_stop];
                 analysed := None;
                 disk := after r |}
  else Return {| messages := log r ++ [if is_new_data r then st_success
                                       else st_info];
                 analysed := Some (df r);
                 disk := after r |}.

(** The ledger the next run will start from, when it can start. *)
Definition ledger_of (w : world) : result (gmap string Z) :=
  data ← load_processed_files (STATUS_FILE w);
  dict_copy data.

(** ** Vocabulary of the statements *)

(** The rows of a frame that fall on day [d]. *)
Definition day_rows (d : Z) (df : list row) : list row :=
  filter (λ r, date <$> measured r = Some d) df.

(** The last value of column [j] that is not missing in a group, if any. *)
Definition last_present (j : nat) (group : list row) : cell :=
  last (omap (λ r, mjoin (metrics r !! j)) group).

(** A row with a date-time and no missing metric. *)
Definition complete (r : row) : Prop :=
  is_Some (measured r) ∧ Forall is_Some (metrics r).

(** A directory entry the loop reaches the [try] block with. *)
Definition pending (processed : gmap string Z)
  (entry : string * (Z * csv_file)) : bool :=
  endswith entry.1 ".csv" && negb (already_processed processed entry.1 entry.2.1).

Definition readable (content : csv_file) : bool :=
  match read_csv_with_dates content with
  | Return _ => true
  | Raise _ => false
  end.

(** An entry whose rows the loop appends to [merged_df]. *)
Definition ingested (processed : gmap string Z)
  (entry : string * (Z * csv_file)) : bool :=
  pending processed entry && readable entry.2.2.

(** The rows an entry contributes to [merged_df]. *)
Definition rows_from (processed : gmap string Z)
  (entry : string * (Z * csv_file)) : list row :=
  if pending processed entry then
    match read_csv_with_dates entry.2.2 with
    | Return df => df
    | Raise _ => []
    end
  else [].

(** The diagnostics an entry causes. *)
Definition errors_from (processed : gmap string Z)
  (entry : string * (Z * csv_file)) : list event :=
  if pending processed entry then
    match read_csv_with_dates entry.2.2 with
    | Return _ => []
    | Raise e => [st_error_read entry.1 e]
    end
  else [].

(** The zones of the date-times an entry contributes to [merged_df]. *)
Definition zones_from (processed : gmap string Z)
  (entry : string * (Z * csv_file)) : list tz :=
  zones_of (zone entry.2.2) (rows_from processed entry).


(** ** Histories *)

(** The worlds that runs of the pipeline lead to, with the data directory
    free to change between runs and nothing else writing the ledger or the
    snapshot. *)
Inductive later_world `{SortValues} : world → world → Prop :=
| later_now (w : world) : later_world w w
| later_run (w w' : world) (r : run) :
    load_and_merge_csv_files w = Return r →
    later_world (after r) w' →
    later_world w w'
| later_files (w w' : world) (dir : gmap string (Z * csv_file)) :
    later_world {| STATUS_FILE := STATUS_FILE w;
                   CACHE_DATA_FILE := CACHE_DATA_FILE w;
                   DATA_DIR := dir |} w' →
    later_world w w'.

(** ** Sample data *)

(** 2024-01-01, in days since 1970-01-01. *)
Definition JAN_1_2024 : Z := 19723.

Definition at_hour (day hour : Z) : timestamp :=
  day * SECONDS_PER_DAY + hour * 3600.

(** The two readings of the latest-wins example: 08:00 with weight 60.0 and
    20:00 with weight 59.5. *)
Definition morning : row := Row (Some (at_hour JAN_1_2024 8)) [Some 60.0%Q].
Definition evening : row := Row (Some (at_hour JAN_1_2024 20)) [Some 59.5%Q].

(** The same day with two metric columns (weight, body fat), the evening
    reading lacking the second. *)
Definition morning_full : row :=
  Row (Some (at_hour JAN_1_2024 8)) [Some 60.0%Q; Some 20.0%Q].
Definition evening_partial : row :=
  Row (Some (at_hour JAN_1_2024 20)) [Some 59.5%Q; None].
Definition blend : row :=
  Row (Some (at_hour JAN_1_2024 20)) [Some 59.5%Q; Some 20.0%Q].

(** Two readings with one and the same date-time. *)
Definition first_reading : row :=
  Row (Some (at_hour JAN_1_2024 8)) [Some 60.0%Q].
Definition second_reading : row :=
  Row (Some (at_hour JAN_1_2024 8)) [Some 59.5%Q].

(** The line of a source file a row is read from. *)
Definition line_of (r : row) : csv_line :=
  CsvLine match measured r with
          | Some t => TsText (Some t)
          | None => TsBlank
          end
          (metrics r).

Definition next_day : row :=
  Row (Some (at_hour (JAN_1_2024 + 1) 8)) [Some 59.0%Q].

(** A first export, a.csv, was ingested by an earlier run, which left the
    ledger and the snapshot; a second export, b.csv, has arrived since. *)
Definition second_export_world : world :=
  {| STATUS_FILE := Holds (Some (JObject {["a.csv" := 100]}));
     CACHE_DATA_FILE := Some [(JAN_1_2024, morning)];
     DATA_DIR := {["a.csv" := (100, Table [line_of morning]);
                   "b.csv" := (200, Table [line_of next_day])]} |}.

(** A first run over a valid file and one that lacks the 測定日 column. *)
Definition good_and_bad_world : world :=
  {| STATUS_FILE := Missing;
     CACHE_DATA_FILE := None;
     DATA_DIR := {["good.csv" := (100, Table [line_of morning]);
                   "bad.csv" := (200, TableWithoutDate [[Some 60.0%Q]])]} |}.


(** ** Further vocabulary *)

(** A frame as [dedup_by_day] leaves it: 日付のみ is the day of 測定日 in
    every row, and the days ascend strictly. *)
Definition valid_dataset (D : dataset) : Prop :=
  Forall (λ x, date <$> measured x.2 = Some x.1) D ∧
  StronglySorted (λ x y, x.1 < y.1) D.

(** A row of a frame with its 日付のみ as a group key. *)
Definition keyed (x : Z * row) : option Z * row := (Some x.1, x.2).

(** What a run returns, shows and leaves in the two files it writes. *)
Definition observed (r : run)
  : dataset * bool * list event * status_file * option dataset :=
  (df r, is_new_data r, log r, STATUS_FILE (after r), CACHE_DATA_FILE (after r)).

Definition observe (o : result run)
  : result (dataset * bool * list event * status_file * option dataset) :=
  match o with
  | Return r => Return (observed r)
  | Raise e => Raise e
  end.

(** The entries of a directory that bear the extension. *)
Definition csv_part (dir : gmap string (Z * csv_file))
  : gmap string (Z * csv_file) :=
  filter (λ kv, endswith kv.1 ".csv" = true) dir.

(** The file a diagnostic of the loop names. *)
Definition diagnosed (ev : event) : option string :=
  match ev with
  | st_error_read fname _ => Some fname
  | _ => None
  end.

(** An entry of the listing that bears the extension. *)
Definition has_extension (e : string * (Z * csv_file)) : Prop :=
  endswith e.1 ".csv" = true.

#[global] Instance has_extension_dec e : Decision (has_extension e).
Proof. unfold has_extension. apply _. Defined.

#[global] Instance name_le_trans : Transitive name_le.
Proof. intros a b c. unfold name_le. apply transitivity. Qed.

#[global] Instance name_le_total : Total name_le.
Proof. intros a b. unfold name_le. apply total, _. Qed.

(** ** The comparison windows (lines 113-120, 138-168) *)

(** [timedelta(days=30)]. *)
Definition THIRTY_DAYS : Z := 30 * SECONDS_PER_DAY.

(** [a <= b] on 測定日; a comparison with NaT is false. *)
Definition on_or_before (a b : option timestamp) : bool :=
  match a, b with
  | Some x, Some y => x <=? y
  | _, _ => false
  end.

(** [df[df["測定日"] <= t]]. *)
Definition up_to (t : option timestamp) (df : dataset) : dataset :=
  filter (λ x, on_or_before (measured x.2) t = true) df.

(** [.tail(5)]. *)
Definition tail5 {A : Type} (l : list A) : list A := drop (length l - 5) l.

(** [frame[col]], with the column given by its position among the
    metrics.  The frame is taken to have the columns the script names: on
    a frame without them line 111 stops the script with KeyError before
    these lines are reached. *)
Definition column (j : nat) (df : dataset) : list cell :=
  map (λ x, default None (metrics x.2 !! j)) df.

(** [df["測定日"].max()]. *)
Definition latest_date (df : dataset) : option timestamp :=
  match omap (λ x, measured x.2) df with
  | [] => None
  | t :: ts => Some (foldr Z.max t ts)
  end.

Definition month_before (t : option timestamp) : option timestamp :=
  (λ t, t - THIRTY_DAYS) <$> t.

(** Lines 117-120: the rows the two averages are taken over. *)
Definition recent_window (df : dataset) : dataset :=
  tail5 (up_to (latest_date df) df).

Definition past_window (df : dataset) : dataset :=
  tail5 (up_to (month_before (latest_date df)) df).

(** What lines 159-168 show for one column. *)
Inductive panel (num : Type) : Type :=
| Chart (dates : list (option timestamp)) (changes : list num)
| NotEnoughData.
Arguments Chart {num} dates changes.
Arguments NotEnoughData {num}.

Section change_rate.
(** The arithmetic on floats is left open: the mean of a column, the test
    [p != 0] and the rate [((r - p) / p) * 100]. *)
Context {num : Type}.
Context (mean : list cell → num).
Context (is_zero : num → bool).
Context (rate : num → num → num).

(** Lines 144-157: one turn of the loop over the rows. *)
Definition change_at (df : dataset) (j : nat)
  (current_date : option timestamp) : option (option timestamp * num) :=
  let one_month_before := month_before current_date in
  let recent := tail5 (up_to current_date df) in
  let past := tail5 (up_to one_month_before df) in
  if (length recent <? 5)%nat || (length past <? 5)%nat then None
  else
    let r := mean (column j recent) in
    let p := mean (column j past) in
    if is_zero p then None else Some (current_date, rate r p).

(** Lines 140-157: [dates] and [changes], pair by pair. *)
Definition change_series (df : dataset) (j : nat)
  : list (option timestamp * num) :=
  omap (λ x, change_at df j (measured x.2)) df.

Definition change_panel (df : dataset) (j : nat) : panel num :=
  match change_series df j with
  | [] => NotEnoughData
  | s => Chart s.*1 s.*2
  end.

End change_rate.

(** ** Further sample data *)

(** An export without zone next to one whose date-times name an offset. *)
Definition mixed_zone_world : world :=
  {| STATUS_FILE := Missing;
     CACHE_DATA_FILE := None;
     DATA_DIR := {["a.csv" := (100, Table [line_of morning]);
                   "b.csv" := (200, ZonedTable [line_of next_day])]} |}.

(** good.csv and bad.csv beside a file without the extension. *)
Definition cluttered_world : world :=
  {| STATUS_FILE := Missing;
     CACHE_DATA_FILE := None;
     DATA_DIR := <["notes.txt" := (300, Garbled ParserError)]>
                   (DATA_DIR good_and_bad_world) |}.

(** a.csv is recorded and unchanged, and the snapshot holds its day. *)
Definition settled_world : world :=
  {| STATUS_FILE := Holds (Some (JObject {["a.csv" := 100]}));
     CACHE_DATA_FILE := Some [(JAN_1_2024, morning)];
     DATA_DIR := {["a.csv" := (100, Table [line_of morning])]} |}.


(** The arithmetic of the change rate in exact rationals, for the
    examples: the mean of the values that are not missing, the test for
    zero, and the rate in percent. *)
Definition exact_mean (cs : list cell) : cell :=
  match omap id cs with
  | [] => None
  | qs => Some (foldr Qplus 0%Q qs / inject_Z (Z.of_nat (length qs)))%Q
  end.

Definition exact_is_zero (p : cell) : bool :=
  match p with
  | Some q => Qeq_bool q 0
  | None => false
  end.

Definition exact_rate (r p : cell) : cell :=
  match r, p with
  | Some r, Some p => Some ((r - p) / p * 100)%Q
  | _, _ => None
  end.

(** * Properties *)

(** ** The order on date-times and the two sorts *)

Lemma date_mono (s t : timestamp) : s ≤ t → date s ≤ date t.
Proof. intros Hst. unfold date, SECONDS_PER_DAY. by apply Z.div_le_mono. Qed.

Lemma date_lt_inv (s t : timestamp) : date s < date t → s < t.
Proof.
  intros Hd. destruct (Z.lt_ge_cases s t) as [?|Hts]; [done|].
  apply date_mono in Hts. lia.
Qed.

Lemma ts_le_antisym (a b : option timestamp) : ts_le a b → ts_le b a → a = b.
Proof. destruct a, b; simpl; try done. intros. f_equal. lia. Qed.

Section sort_values_facts.
Context `{SortValues}.

Lemma sort_values_elem_of {A} (key : A → option timestamp) l x :
  x ∈ sort_values key l ↔ x ∈ l.
Proof. by rewrite sort_values_Permutation. Qed.

Lemma sort_values_StronglySorted {A} (key : A → option timestamp) l :
  StronglySorted (key_le key) (sort_values key l).
Proof. apply Sorted_StronglySorted; [apply _|apply sort_values_Sorted]. Qed.

(** A frame that is already in order, with no two rows ranked equal, is
    left as it is. *)
Lemma sort_values_id {A} (key : A → option timestamp) l :
  Sorted (key_le key) l →
  (∀ x y, x ∈ l → y ∈ l → key x = key y → x = y) →
  sort_values key l = l.
Proof.
  intros Hl Hinj. apply (Sorted_unique_strong (key_le key)).
  - intros x y Hx Hy Hxy Hyx. apply Hinj; [by apply sort_values_elem_of in Hx|done|].
    by apply ts_le_antisym.
  - apply sort_values_Sorted.
  - done.
  - apply sort_values_Permutation.
Qed.

Lemma sort_values_nil {A} (key : A → option timestamp) :
  sort_values key [] = [].
Proof. apply Permutation_nil_r. apply sort_values_Permutation. Qed.

Lemma sort_values_singleton {A} (key : A → option timestamp) x :
  sort_values key [x] = [x].
Proof. apply Permutation_singleton_r. apply sort_values_Permutation. Qed.

End sort_values_facts.

(** ** Aggregation of one group *)

Lemma last_valid_snoc (g : list row) (r : row) :
  last_valid (g ++ [r]) = later_valid (last_valid g) r.
Proof. unfold last_valid. by rewrite foldl_snoc. Qed.

Lemma coalesce_complete (prev cur : list cell) :
  Forall is_Some cur → coalesce prev cur = cur.
Proof.
  intros Hcur. revert prev.
  induction Hcur as [|c cur [q ->] _ IH]; intros prev; simpl; [done|].
  by rewrite IH.
Qed.

Lemma later_valid_complete (prev r : row) : complete r → later_valid prev r = r.
Proof.
  destruct r as [m cs]. intros [[t Ht] Hcs]. simpl in *. subst m.
  unfold later_valid. simpl. by rewrite coalesce_complete.
Qed.

Lemma later_valid_measured (prev r : row) (t : timestamp) :
  measured r = Some t → measured (later_valid prev r) = Some t.
Proof. intros Hr. unfold later_valid. simpl. by rewrite Hr. Qed.

Lemma coalesce_lookup (prev cur : list cell) (j : nat) :
  coalesce prev cur !! j =
  (λ c : cell, match c with
               | Some _ => c
               | None => default None (prev !! j)
               end) <$> cur !! j.
Proof.
  revert prev j. induction cur as [|c cur IH]; intros prev j; [done|].
  destruct j as [|j]; simpl.
  - by destruct prev.
  - rewrite IH. by destruct prev.
Qed.

Lemma coalesce_length (prev cur : list cell) :
  length (coalesce prev cur) = length cur.
Proof.
  revert prev. induction cur as [|c cur IH]; intros prev; simpl; [done|].
  by rewrite IH.
Qed.

(** [last_valid] column by column: in a group of rows of one width, each
    metric of the aggregate is the last value of its column that is not
    missing, and the 測定日 of the aggregate is the last that is not NaT. *)
Lemma last_valid_column (n : nat) (group : list row) (j : nat) :
  Forall (λ r, length (metrics r) = n) group → (j < n)%nat →
  default None (metrics (last_valid group) !! j) = last_present j group.
Proof.
  intros Hwidth Hj. induction group as [|r group IH] using rev_ind; [done|].
  apply Forall_app in Hwidth as [Hgroup Hr]. apply Forall_inv in Hr.
  destruct (lookup_lt_is_Some_2 (metrics r) j) as [c Hc]; [lia|].
  assert (omap (λ r, mjoin (metrics r !! j)) [r] = option_list c) as Hlast.
  { cbn. rewrite Hc. by destruct c. }
  rewrite last_valid_snoc. unfold last_present.
  rewrite omap_app, last_app, Hlast.
  cbn [later_valid metrics]. rewrite coalesce_lookup, Hc.
  destruct c as [q|]; simpl; [done|]. by apply IH.
Qed.

Lemma last_valid_measured (group : list row) :
  measured (last_valid group) = last (omap measured group).
Proof.
  induction group as [|r group IH] using rev_ind; [done|].
  rewrite last_valid_snoc, omap_app, last_app. simpl.
  destruct (measured r); simpl; [done|]. exact IH.
Qed.

Lemma last_valid_width (n : nat) (group : list row) :
  group ≠ [] → Forall (λ r, length (metrics r) = n) group →
  length (metrics (last_valid group)) = n.
Proof.
  destruct group as [|r group _] using rev_ind; [done|].
  intros _ [_ Hr]%Forall_app. apply Forall_inv in Hr.
  rewrite last_valid_snoc. simpl. by rewrite coalesce_length.
Qed.

(** ** Groups and their keys *)

Lemma StronglySorted_filter {A} (R : relation A) (P : A → Prop)
  `{∀ x, Decision (P x)} (l : list A) :
  StronglySorted R l → StronglySorted R (filter P l).
Proof.
  induction 1 as [|x l Hl IH Hx]; [constructor|].
  rewrite filter_cons. case_decide; [|done].
  constructor; [done|].
  apply Forall_forall. intros y [_ Hy]%list_elem_of_filter.
  rewrite Forall_forall in Hx. by apply Hx.
Qed.

Lemma group_of_with_date (d : Z) (df : list row) :
  group_of d (with_date df) = day_rows d df.
Proof.
  unfold group_of, with_date, day_rows.
  induction df as [|r df IH]; [done|].
  simpl. rewrite !filter_cons. simpl.
  case_decide; simpl; by rewrite IH.
Qed.

Lemma elem_of_day_rows (d : Z) (df : list row) (r : row) :
  r ∈ day_rows d df ↔ r ∈ df ∧ ∃ t, measured r = Some t ∧ date t = d.
Proof.
  unfold day_rows. rewrite list_elem_of_filter. split.
  - intros [Hd Hr]. split; [done|].
    destruct (measured r) as [t|]; simplify_eq/=. eauto.
  - intros [Hr (t & -> & <-)]. done.
Qed.

Lemma elem_of_group_keys (d : Z) (df : list row) :
  d ∈ group_keys (with_date df) ↔
  ∃ r t, r ∈ df ∧ measured r = Some t ∧ date t = d.
Proof.
  unfold group_keys. rewrite merge_sort_Permutation, elem_of_remove_dups.
  rewrite list_elem_of_omap. unfold with_date. split.
  - intros ([o r] & Hin & Ho). simpl in Ho. subst o.
    apply list_elem_of_fmap in Hin as (r' & [= Hd ->] & Hr').
    destruct (measured r') as [t|] eqn:Ht; simplify_eq/=. eauto.
  - intros (r & t & Hr & Ht & <-). exists (Some (date t), r). split; [|done].
    apply list_elem_of_fmap. exists r. by rewrite Ht.
Qed.

Lemma group_keys_NoDup (df : list (option Z * row)) : NoDup (group_keys df).
Proof.
  unfold group_keys. rewrite merge_sort_Permutation. apply NoDup_remove_dups.
Qed.

Lemma group_keys_ascending (df : list (option Z * row)) :
  StronglySorted Z.lt (group_keys df).
Proof.
  pose proof (group_keys_NoDup df) as Hnd.
  assert (StronglySorted Z.le (group_keys df)) as Hs.
  { apply (StronglySorted_merge_sort _). }
  induction Hs as [|d ds Hds IH Hd]; [constructor|].
  apply NoDup_cons in Hnd as [Hnotin Hnd].
  constructor; [by apply IH|].
  rewrite Forall_forall in Hd. apply Forall_forall. intros e He.
  specialize (Hd e He). assert (d ≠ e) by (intros ->; done). lia.
Qed.

Lemma groupby_last_keys (df : list (option Z * row)) :
  (groupby_last df).*1 = group_keys df.
Proof.
  unfold groupby_last. induction (group_keys df) as [|d ds IH]; [done|].
  simpl. f_equal. exact IH.
Qed.

(** A group is never empty, and its aggregate carries the date-time of its
    last row, which falls on the group's day. *)
Lemma day_rows_last (d : Z) (df : list row) :
  d ∈ group_keys (with_date df) →
  ∃ g x t, day_rows d df = g ++ [x] ∧ measured x = Some t ∧ date t = d.
Proof.
  intros (r & t & Hr & Ht & Hd)%elem_of_group_keys.
  assert (r ∈ day_rows d df) as Hin by (apply elem_of_day_rows; eauto).
  destruct (last (day_rows d df)) as [x|] eqn:Hlast.
  - apply last_Some in Hlast as [g Hg]. exists g, x.
    assert (x ∈ day_rows d df) as Hx by (rewrite Hg; set_solver).
    apply elem_of_day_rows in Hx as (_ & t' & ? & ?). eauto.
  - apply last_None in Hlast. rewrite Hlast in Hin. by apply not_elem_of_nil in Hin.
Qed.

Lemma last_valid_stamp (d : Z) (df : list row) :
  d ∈ group_keys (with_date df) →
  ∃ t, measured (last_valid (day_rows d df)) = Some t ∧ date t = d.
Proof.
  intros (g & x & t & -> & Hx & Hd)%day_rows_last. exists t. split; [|done].
  rewrite last_valid_snoc. by apply later_valid_measured.
Qed.

Lemma elem_of_groupby_last (df : list row) (d : Z) (r : row) :
  (d, r) ∈ groupby_last (with_date df) ↔
  d ∈ group_keys (with_date df) ∧ r = last_valid (day_rows d df).
Proof.
  unfold groupby_last. rewrite list_elem_of_fmap. split.
  - intros (d' & [= -> ->] & Hd'). by rewrite group_of_with_date.
  - intros [Hd ->]. exists d. by rewrite group_of_with_date.
Qed.

(** The grouped frame is already in order of 測定日, strictly. *)
Lemma groupby_last_ascending (df : list row) :
  StronglySorted
    (λ x y, ∃ s t, measured x.2 = Some s ∧ measured y.2 = Some t ∧ s < t)
    (groupby_last (with_date df)).
Proof.
  unfold groupby_last.
  assert (∀ d, d ∈ group_keys (with_date df) →
    ∃ t, measured (last_valid (group_of d (with_date df))) = Some t ∧ date t = d)
    as Hstamp.
  { intros d Hd. rewrite group_of_with_date. by apply last_valid_stamp. }
  pose proof (group_keys_ascending (with_date df)) as Hs.
  induction Hs as [|d ds Hds IH Hd]; [constructor|].
  simpl. constructor.
  - apply IH. intros e He. apply Hstamp. by right.
  - apply Forall_forall. intros [e r] (e' & [= -> ->] & He)%list_elem_of_fmap.
    rewrite Forall_forall in Hd. specialize (Hd _ He).
    destruct (Hstamp d) as (s & Hs' & Hsd); [by left|].
    destruct (Hstamp e') as (t & Ht & Hte); [by right|].
    exists s, t. simpl. split_and!; [done..|].
    apply date_lt_inv. lia.
Qed.

(** ** Deduplication *)

Section dedup_facts.
Context `{SortValues}.

(** The second [sort_values] of line 86 finds the frame in order. *)
Lemma dedup_by_day_grouped (rows : list row) :
  dedup_by_day rows = groupby_last (with_date (sort_values measured rows)).
Proof.
  unfold dedup_by_day. set (df := sort_values measured rows).
  pose proof (groupby_last_ascending df) as Hasc.
  apply sort_values_id.
  - apply StronglySorted_Sorted.
    rewrite <-(list_fmap_id (groupby_last _)).
    eapply StronglySorted_fmap; [|exact Hasc].
    intros x y (s & t & Hs & Ht & Hst). unfold key_le. simpl.
    rewrite Hs, Ht. simpl. lia.
  - intros [d r] [e r'] Hx Hy Hkey. simpl in Hkey.
    apply elem_of_groupby_last in Hx as [Hd ->].
    apply elem_of_groupby_last in Hy as [He ->].
    destruct (last_valid_stamp d df Hd) as (s & Hs & <-).
    destruct (last_valid_stamp e df He) as (t & Ht & <-).
    rewrite Hs, Ht in Hkey. by simplify_eq.
Qed.

(** Every day of the merged frame is a day of the result. *)
Lemma dedup_by_day_covers (rows : list row) (x : row) (t : timestamp) :
  x ∈ rows → measured x = Some t →
  ∃ r, (date t, r) ∈ dedup_by_day rows.
Proof.
  intros Hx Ht. rewrite dedup_by_day_grouped.
  exists (last_valid (day_rows (date t) (sort_values measured rows))).
  apply elem_of_groupby_last. split; [|done].
  apply elem_of_group_keys. exists x, t. by rewrite sort_values_elem_of.
Qed.

(** The last row of a day's group is a row of the merged frame that no
    row of that day is later than. *)
Lemma day_rows_latest (rows : list row) (d : Z) (g : list row) (x : row) :
  day_rows d (sort_values measured rows) = g ++ [x] →
  x ∈ rows ∧
  ∀ y, y ∈ rows → date <$> measured y = Some d →
       ts_le (measured y) (measured x).
Proof.
  intros Hg.
  assert (x ∈ day_rows d (sort_values measured rows)) as Hx
    by (rewrite Hg; set_solver).
  split.
  { apply elem_of_day_rows in Hx as [Hx _]. by apply sort_values_elem_of in Hx. }
  intros y Hy Hd.
  assert (y ∈ g ++ [x]) as Hin.
  { rewrite <-Hg. unfold day_rows. apply list_elem_of_filter.
    by rewrite sort_values_elem_of. }
  pose proof (sort_values_StronglySorted measured rows) as Hs.
  apply (StronglySorted_filter _ (λ r, date <$> measured r = Some d)) in Hs.
  fold (day_rows d (sort_values measured rows)) in Hs. rewrite Hg in Hs.
  apply elem_of_app in Hin as [Hin|Hin].
  - apply (StronglySorted_app_1_elem_of _ _ _ _ _ Hs Hin). set_solver.
  - apply list_elem_of_singleton in Hin as ->. reflexivity.
Qed.



End dedup_facts.

(** ** The scan loop *)

Section scan_facts.
Context (processed : gmap string Z).
Implicit Types (st : loop_state) (e : string * (Z * csv_file)).
Implicit Types (es : list (string * (Z * csv_file))).

(** One turn of the loop, field by field. *)
Lemma loop_body_fields st e :
  loop_body processed st e =
  {| merged_df := merged_df st ++ rows_from processed e;
     updated_processed :=
       if ingested processed e
       then <[e.1 := e.2.1]> (updated_processed st)
       else updated_processed st;
     new_data_loaded := new_data_loaded st || ingested processed e;
     shown := shown st ++ errors_from processed e;
     zones := zones st ++ zones_from processed e |}.
Proof.
  destruct st as [rows upd new errs zs], e as [fname [mtime content]].
  unfold loop_body, zones_from, rows_from, errors_from, ingested, pending,
    readable, try_file.
  simpl.
  destruct (endswith fname ".csv"); simpl;
    [|by rewrite !app_nil_r, orb_false_r].
  destruct (already_processed processed fname mtime); simpl;
    [by rewrite !app_nil_r, orb_false_r|].
  destruct (read_csv_with_dates content); simpl.
  - by rewrite app_nil_r, orb_true_r.
  - by rewrite !app_nil_r, orb_false_r.
Qed.


Lemma foldl_loop_body_shown es st :
  shown (foldl (loop_body processed) st es) =
  shown st ++ (es ≫= errors_from processed).
Proof.
  revert st. induction es as [|e es IH]; intros st; simpl.
  - by rewrite app_nil_r.
  - rewrite IH, loop_body_fields. simpl. by rewrite <-app_assoc.
Qed.

Lemma foldl_loop_body_zones es st :
  zones (foldl (loop_body processed) st es) =
  zones st ++ (es ≫= zones_from processed).
Proof.
  revert st. induction es as [|e es IH]; intros st; simpl.
  - by rewrite app_nil_r.
  - rewrite IH, loop_body_fields. simpl. by rewrite <-app_assoc.
Qed.

Lemma foldl_loop_body_new_data es st :
  new_data_loaded (foldl (loop_body processed) st es) = true ↔
  new_data_loaded st = true ∨ ∃ e, e ∈ es ∧ ingested processed e = true.
Proof.
  revert st. induction es as [|e es IH]; intros st; simpl.
  - split; [auto|]. intros [?|(e & He & _)]; [done|]. by apply not_elem_of_nil in He.
  - rewrite IH, loop_body_fields. simpl. rewrite orb_true_iff. split.
    + intros [[?|?]|(e' & He' & ?)]; [by left|right; exists e; split; [left|done]|].
      right. exists e'. split; [by right|done].
    + intros [?|(e' & He' & ?)]; [by left; left|].
      apply elem_of_cons in He' as [->|He']; [by left; right|].
      right. eauto.
Qed.

(** Names that no ingested entry bears keep their ledger value. *)
Lemma foldl_loop_body_ledger_other es st k :
  (∀ v, (k, v) ∈ es → ingested processed (k, v) = false) →
  updated_processed (foldl (loop_body processed) st es) !! k =
  updated_processed st !! k.
Proof.
  revert st. induction es as [|e es IH]; intros st Hk; simpl; [done|].
  rewrite IH by (intros v Hv; apply Hk; by right).
  rewrite loop_body_fields. simpl.
  destruct (ingested processed e) eqn:He; [|done].
  apply lookup_insert_ne. intros Hname. destruct e as [fname v]. simpl in *. subst.
  rewrite Hk in He; [done|by left].
Qed.

(** An ingested entry leaves its modification time under its name. *)
Lemma foldl_loop_body_ledger_ingested es st k v :
  NoDup es.*1 → (k, v) ∈ es → ingested processed (k, v) = true →
  updated_processed (foldl (loop_body processed) st es) !! k = Some v.1.
Proof.
  revert st. induction es as [|e es IH]; intros st Hnd Hin Hing; simpl.
  { by apply not_elem_of_nil in Hin. }
  rewrite fmap_cons in Hnd. apply NoDup_cons in Hnd as [Hfresh Hnd].
  apply elem_of_cons in Hin as [<-|Hin]; [|by apply IH].
  rewrite foldl_loop_body_ledger_other.
  - rewrite loop_body_fields. simpl. rewrite Hing. apply lookup_insert_eq.
  - intros v' Hv'. exfalso. apply Hfresh. simpl.
    apply list_elem_of_fmap. by exists (k, v').
Qed.

End scan_facts.

(** The listing holds each file of the directory once. *)
Lemma elem_of_sorted_listdir dir k v :
  (k, v) ∈ sorted_listdir dir ↔ dir !! k = Some v.
Proof.
  unfold sorted_listdir. rewrite merge_sort_Permutation.
  apply elem_of_map_to_list.
Qed.

Lemma sorted_listdir_NoDup dir : NoDup (sorted_listdir dir).*1.
Proof.
  unfold sorted_listdir. rewrite merge_sort_Permutation.
  apply NoDup_fst_map_to_list.
Qed.

Section scan_world.
Context (processed : gmap string Z) (w : world).


Lemma scan_shown :
  shown (scan processed w) =
  sorted_listdir (DATA_DIR w) ≫= errors_from processed.
Proof. unfold scan. by rewrite foldl_loop_body_shown. Qed.

Lemma scan_zones :
  zones (scan processed w) =
  sorted_listdir (DATA_DIR w) ≫= zones_from processed.
Proof. unfold scan. by rewrite foldl_loop_body_zones. Qed.

(** A date-time of zone [z] is in [merged_df] exactly when a file of that
    zone that the run reads has one. *)
Lemma elem_of_scan_zones z :
  z ∈ zones (scan processed w) ↔
  ∃ k m c rows x t,
    DATA_DIR w !! k = Some (m, c) ∧ endswith k ".csv" = true ∧
    processed !! k ≠ Some m ∧ read_csv_with_dates c = Return rows ∧
    x ∈ rows ∧ measured x = Some t ∧ zone c = z.
Proof.
  rewrite scan_zones, list_elem_of_bind. split.
  - intros ([k [m c]] & Hz & Hin%elem_of_sorted_listdir).
    unfold zones_from, zones_of, rows_from, pending in Hz. simpl in Hz.
    apply list_elem_of_omap in Hz as (x & Hx & Hzx).
    destruct (endswith k ".csv") eqn:Hext; simpl in Hx;
      [|by apply not_elem_of_nil in Hx].
    destruct (already_processed processed k m) eqn:Hnew; simpl in Hx;
      [by apply not_elem_of_nil in Hx|].
    destruct (read_csv_with_dates c) as [rows|] eqn:Hread;
      [|by apply not_elem_of_nil in Hx].
    destruct (measured x) as [t|] eqn:Ht; [|done]. injection Hzx as <-.
    exists k, m, c, rows, x, t. split_and!; try done.
    unfold already_processed in Hnew. intros Hk. rewrite Hk in Hnew.
    by rewrite Z.eqb_refl in Hnew.
  - intros (k & m & c & rows & x & t & Hk & Hext & Hnew & Hread & Hx & Ht & <-).
    exists (k, (m, c)). split; [|by apply elem_of_sorted_listdir].
    unfold zones_from, zones_of, rows_from, pending. simpl.
    assert (already_processed processed k m = false) as ->.
    { unfold already_processed. destruct (processed !! k) as [t'|]; [|done].
      apply Z.eqb_neq. congruence. }
    rewrite Hext, Hread. simpl. apply list_elem_of_omap.
    exists x. by rewrite Ht.
Qed.

Lemma scan_new_data_loaded :
  new_data_loaded (scan processed w) = true ↔
  ∃ k v, DATA_DIR w !! k = Some v ∧ ingested processed (k, v) = true.
Proof.
  unfold scan. rewrite foldl_loop_body_new_data. simpl. split.
  - intros [?|([k v] & Hin & Hing)]; [done|].
    exists k, v. by rewrite <-elem_of_sorted_listdir.
  - intros (k & v & Hin & Hing). right. exists (k, v).
    by rewrite elem_of_sorted_listdir.
Qed.

Lemma scan_updated_processed k :
  updated_processed (scan processed w) !! k =
  match DATA_DIR w !! k with
  | Some v => if ingested processed (k, v) then Some v.1 else processed !! k
  | None => processed !! k
  end.
Proof.
  unfold scan. destruct (DATA_DIR w !! k) as [v|] eqn:Hk.
  - destruct (ingested processed (k, v)) eqn:Hing.
    + apply (foldl_loop_body_ledger_ingested processed _ _ k v);
        [apply sorted_listdir_NoDup|by apply elem_of_sorted_listdir|done].
    + rewrite foldl_loop_body_ledger_other; [done|].
      intros v' Hv'%elem_of_sorted_listdir. by simplify_eq.
  - rewrite foldl_loop_body_ledger_other; [done|].
    intros v' Hv'%elem_of_sorted_listdir. by simplify_eq.
Qed.


Lemma elem_of_scan_shown ev :
  ev ∈ shown (scan processed w) ↔
  ∃ k v, DATA_DIR w !! k = Some v ∧ ev ∈ errors_from processed (k, v).
Proof.
  rewrite scan_shown, list_elem_of_bind. split.
  - intros ([k v] & Hx & Hin%elem_of_sorted_listdir). eauto.
  - intros (k & v & Hin & Hx). exists (k, v). by rewrite elem_of_sorted_listdir.
Qed.

End scan_world.

(** ** The ledger file *)

Lemma already_processed_true processed fname mtime :
  already_processed processed fname mtime = true ↔
  processed !! fname = Some mtime.
Proof.
  unfold already_processed. destruct (processed !! fname) as [t|]; [|done].
  rewrite Z.eqb_eq. split; congruence.
Qed.

Lemma already_processed_false processed fname mtime :
  already_processed processed fname mtime = false ↔
  processed !! fname ≠ Some mtime.
Proof.
  rewrite <-already_processed_true. by destruct (already_processed _ _ _).
Qed.

Lemma load_processed_files_never_list f :
  load_processed_files f ≠ Return JList.
Proof. by destruct f as [| |[[]|]]. Qed.

Lemma ledger_of_saves w processed d :
  ledger_of w = Return processed →
  save_processed_files d (STATUS_FILE w) = Return (Holds (Some (JObject d))).
Proof. unfold ledger_of. by destruct (STATUS_FILE w). Qed.

(** ** The pipeline *)

Section pipeline_facts.
Context `{SortValues}.

(** Once the ledger is loaded, the pipeline raises at line 83 or returns. *)
Lemma load_and_merge_csv_files_loaded w processed :
  ledger_of w = Return processed →
  load_and_merge_csv_files w =
  if new_data_loaded (scan processed w) && mixed (zones (scan processed w))
  then Raise TypeError
  else Return (outcome processed w).
Proof.
  intros Hl. unfold load_and_merge_csv_files, outcome, comparable.
  pose proof (λ d, ledger_of_saves w processed d Hl) as Hsave.
  unfold ledger_of in Hl.
  destruct (load_processed_files (STATUS_FILE w)) as [data|]; [|done].
  simpl in *. rewrite Hl. simpl.
  destruct (new_data_loaded (scan processed w)); simpl.
  - destruct (mixed (zones (scan processed w))); simpl; [done|].
    by rewrite Hsave.
  - by destruct (CACHE_DATA_FILE w).
Qed.

Lemma load_and_merge_csv_files_outcome w processed :
  ledger_of w = Return processed →
  mixed (zones (scan processed w)) = false →
  load_and_merge_csv_files w = Return (outcome processed w).
Proof.
  intros Hl Hz. rewrite (load_and_merge_csv_files_loaded w processed Hl), Hz.
  by rewrite andb_false_r.
Qed.

Lemma load_and_merge_csv_files_old w processed :
  ledger_of w = Return processed →
  new_data_loaded (scan processed w) = false →
  load_and_merge_csv_files w = Return (outcome processed w).
Proof.
  intros Hl Hold.
  by rewrite (load_and_merge_csv_files_loaded w processed Hl), Hold.
Qed.

Lemma load_and_merge_csv_files_Return w processed r :
  ledger_of w = Return processed →
  load_and_merge_csv_files w = Return r →
  r = outcome processed w.
Proof.
  intros Hl. rewrite (load_and_merge_csv_files_loaded w processed Hl).
  destruct (_ && _); [done|]. by intros [= <-].
Qed.

Lemma load_and_merge_csv_files_ledger w r :
  load_and_merge_csv_files w = Return r →
  ∃ processed, ledger_of w = Return processed.
Proof.
  unfold load_and_merge_csv_files, ledger_of.
  destruct (load_processed_files (STATUS_FILE w)) as [data|]; [|done].
  simpl. destruct (dict_copy data) as [processed|]; [eauto|done].
Qed.

End pipeline_facts.

(** ** Claims on deduplication *)

(** C3: every frame [dedup_by_day] produces has no two rows on the same
    calendar day and is in strictly ascending order of 測定日, whatever rows,
    and however many of them on one day, it is given; each row carries in
    日付のみ the day of its own 測定日. *)
Theorem dedup_by_day_one_row_per_day `{SortValues} (rows : list row) :
  NoDup (map (λ x, date <$> measured x.2) (dedup_by_day rows)) ∧
  Forall (λ x, date <$> measured x.2 = Some x.1) (dedup_by_day rows) ∧
  StronglySorted
    (λ x y, ∃ s t, measured x.2 = Some s ∧ measured y.2 = Some t ∧ s < t)
    (dedup_by_day rows).
Proof.
  rewrite dedup_by_day_grouped. set (sorted := sort_values measured rows).
  assert (Forall (λ x, date <$> measured x.2 = Some x.1)
            (groupby_last (with_date sorted))) as Hday.
  { apply Forall_forall. intros [d r] [Hd ->]%elem_of_groupby_last.
    destruct (last_valid_stamp d sorted Hd) as (t & Ht & <-).
    simpl. by rewrite Ht. }
  split_and!; [|done|apply groupby_last_ascending].
  assert (map (λ x, date <$> measured x.2) (groupby_last (with_date sorted))
          = Some <$> (groupby_last (with_date sorted)).*1) as ->.
  { rewrite <-list_fmap_compose. by apply Forall_fmap_ext_1. }
  apply (NoDup_fmap_2 Some). rewrite groupby_last_keys. apply group_keys_NoDup.
Qed.

(** Three readings of one day, two of them at the same time. *)
Lemma dedup_by_day_sample :
  @dedup_by_day merge_sorter [evening; morning; second_reading] =
  [(JAN_1_2024, evening)].
Proof. vm_compute. reflexivity. Qed.

(** C2, as amended: for every day that has a row in the merged frame the
    result has a row, and every row [(d, r)] of the result is the last-valid
    aggregate of the rows of day [d] in sorted order; the last of these,
    [x], is a row of the merged frame, no row of that day is later than it,
    [r] carries its date-time, and [r] is [x] itself when [x] has no missing
    cell.  Among rows with equal date-times, [x] is the one [sort_values]
    places last. *)
Theorem dedup_by_day_keeps_latest `{SortValues} (rows : list row) :
  (∀ y t, y ∈ rows → measured y = Some t →
          ∃ r, (date t, r) ∈ dedup_by_day rows) ∧
  (∀ d r, (d, r) ∈ dedup_by_day rows →
     ∃ g x,
       day_rows d (sort_values measured rows) = g ++ [x] ∧
       r = last_valid (g ++ [x]) ∧
       x ∈ rows ∧
       date <$> measured x = Some d ∧
       (∀ y, y ∈ rows → date <$> measured y = Some d →
             ts_le (measured y) (measured x)) ∧
       measured r = measured x ∧
       (complete x → r = x)).
Proof.
  split; [intros y t; apply dedup_by_day_covers|].
  intros d r. rewrite dedup_by_day_grouped.
  intros [Hd ->]%elem_of_groupby_last.
  destruct (day_rows_last d _ Hd) as (g & x & t & Hg & Hx & Ht).
  destruct (day_rows_latest rows d g x Hg) as [Hin Hmax].
  exists g, x. rewrite Hg. split_and!; try done.
  - by rewrite Hx, <-Ht.
  - rewrite last_valid_snoc. rewrite Hx. by apply later_valid_measured.
  - intros Hc. rewrite last_valid_snoc. by apply later_valid_complete.
Qed.

(** The latest-wins example: of 08:00 (60.0) and 20:00 (59.5) on
    2024-01-01, the 20:00 reading is kept, in whichever order they come. *)
Lemma latest_wins_example `{SortValues} :
  dedup_by_day [morning; evening] = [(JAN_1_2024, evening)] ∧
  dedup_by_day [evening; morning] = [(JAN_1_2024, evening)].
Proof.
  assert (sort_values measured [morning; evening] = [morning; evening]) as Hs.
  { apply sort_values_id.
    - repeat constructor. unfold key_le. vm_compute. discriminate.
    - intros x y Hx Hy. set_unfold. destruct Hx as [->|[->|[]]], Hy as [->|[->|[]]];
        try done; vm_compute; discriminate. }
  assert (sort_values measured [evening; morning] = [morning; evening]) as Hs'.
  { rewrite <-Hs. apply (Sorted_unique_strong (key_le measured)).
    - intros x y Hx%sort_values_elem_of Hy%sort_values_elem_of.
      set_unfold. destruct Hx as [->|[->|[]]], Hy as [->|[->|[]]];
        try done; vm_compute; intros H1 H2; exfalso; auto.
    - apply sort_values_Sorted.
    - apply sort_values_Sorted.
    - rewrite !sort_values_Permutation. apply Permutation_swap. }
  rewrite !dedup_by_day_grouped, Hs, Hs'. split; vm_compute; reflexivity.
Qed.

(** C2, counterexample: when the later reading of a day lacks a metric that
    an earlier reading of the day has, the row kept for the day is a blend
    of the two, and no row of the input. *)
Lemma dedup_by_day_blends_rows :
  (∀ S : SortValues,
     @dedup_by_day S [morning_full; evening_partial] = [(JAN_1_2024, blend)]) ∧
  blend ∉ [morning_full; evening_partial].
Proof.
  split.
  - intros S.
    assert (sort_values measured [morning_full; evening_partial]
            = [morning_full; evening_partial]) as Hs.
    { apply sort_values_id.
      - repeat constructor. unfold key_le. vm_compute. discriminate.
      - intros x y Hx Hy. set_unfold. destruct Hx as [->|[->|[]]], Hy as [->|[->|[]]];
          try done; vm_compute; discriminate. }
    rewrite dedup_by_day_grouped, Hs. vm_compute. reflexivity.
  - set_unfold. intros [Hb|[Hb|[]]]; vm_compute in Hb; discriminate.
Qed.

(** Which of two readings with the same date-time is kept depends on the
    order [sort_values] leaves them in. *)
Lemma dedup_by_day_tie_follows_sort :
  @dedup_by_day merge_sorter [first_reading; second_reading]
    = [(JAN_1_2024, second_reading)] ∧
  @dedup_by_day backward_sorter [first_reading; second_reading]
    = [(JAN_1_2024, first_reading)].
Proof. split; vm_compute; reflexivity. Qed.

(** ** Claims on the ledger *)


(** In every turn of the loop the entry of the file's name is still as it
    was loaded: the names of a directory are distinct, so no earlier turn
    has written it. *)
Lemma loop_body_meets_loaded_entry (processed : gmap string Z)
  (dir : gmap string (Z * csv_file))
  (earlier later : list (string * (Z * csv_file)))
  (fname : string) (v : Z * csv_file) :
  sorted_listdir dir = earlier ++ (fname, v) :: later →
  updated_processed
    (foldl (loop_body processed)
           {| merged_df := []; updated_processed := processed;
              new_data_loaded := false; shown := []; zones := [] |}
           earlier) !! fname
  = processed !! fname.
Proof.
  intros Hlist. rewrite foldl_loop_body_ledger_other; [done|].
  intros v' Hv'. exfalso.
  pose proof (sorted_listdir_NoDup dir) as Hnd.
  rewrite Hlist, fmap_app, fmap_cons in Hnd.
  apply NoDup_app in Hnd as (_ & Hfresh & _).
  apply (Hfresh fname); [|by left].
  apply list_elem_of_fmap. by exists (fname, v').
Qed.


(** C6, as amended: a ledger file that is absent, or opens and cannot be
    read or parsed, or holds a list, loads as the empty mapping; one that
    holds a mapping loads as that mapping; and loading raises only for a
    file that exists and cannot be opened. *)
Theorem load_processed_files_recovers :
  load_processed_files Missing = Return (JObject ∅) ∧
  load_processed_files (Holds None) = Return (JObject ∅) ∧
  load_processed_files (Holds (Some JList)) = Return (JObject ∅) ∧
  (∀ d, load_processed_files (Holds (Some (JObject d))) = Return (JObject d)) ∧
  (∀ f e, load_processed_files f = Raise e → f = Unopenable).
Proof.
  split_and!; try done.
  by intros [| |[[]|]] e.
Qed.

(** C6, counterexample: a ledger file that exists and cannot be opened
    makes the load raise. *)
Lemma load_processed_files_raises :
  load_processed_files Unopenable = Raise OSError ∧
  ¬ ∃ d, load_processed_files Unopenable = Return d.
Proof. split; [done|]. by intros [d Hd]. Qed.

(** ** Runs of the pipeline *)

Lemma ingested_inv processed k v :
  ingested processed (k, v) = true →
  endswith k ".csv" = true ∧ processed !! k ≠ Some v.1 ∧
  ∃ rows, read_csv_with_dates v.2 = Return rows.
Proof.
  unfold ingested, pending, readable. simpl.
  intros [[Hext Hnew%negb_true_iff]%andb_true_iff Hread]%andb_true_iff.
  apply already_processed_false in Hnew.
  destruct (read_csv_with_dates v.2); [eauto|done].
Qed.

Lemma ingested_intro processed k v rows :
  endswith k ".csv" = true → processed !! k ≠ Some v.1 →
  read_csv_with_dates v.2 = Return rows →
  ingested processed (k, v) = true.
Proof.
  intros Hext Hnew%already_processed_false Hread.
  unfold ingested, pending, readable. simpl. by rewrite Hext, Hnew, Hread.
Qed.




(** The diagnostics of the loop are not writes. *)
Lemma scan_shown_no_write processed w :
  Forall (λ ev, is_write ev = false) (shown (scan processed w)).
Proof.
  apply Forall_forall. intros ev (k & v & _ & Hev)%elem_of_scan_shown.
  unfold errors_from in Hev. destruct (pending _ _); [|by apply not_elem_of_nil in Hev].
  destruct (read_csv_with_dates _); [by apply not_elem_of_nil in Hev|].
  by apply list_elem_of_singleton in Hev as ->.
Qed.

(** After a run that found new data, no file of the same directory is
    ingested again. *)
Lemma scan_settles processed w :
  new_data_loaded
    (scan (updated_processed (scan processed w)) w) = false.
Proof.
  apply not_true_is_false. intros (k & v & Hk & Hing)%scan_new_data_loaded.
  apply ingested_inv in Hing as (Hext & Hnew & rows & Hread).
  apply Hnew. rewrite scan_updated_processed, Hk.
  destruct (ingested processed (k, v)) eqn:Hfirst; [done|].
  destruct (decide (processed !! k = Some v.1)) as [|Hne]; [done|].
  by rewrite (ingested_intro processed k v rows) in Hfirst.
Qed.

Section run_facts.
Context `{SortValues}.

Lemma outcome_new processed w :
  new_data_loaded (scan processed w) = true →
  outcome processed w =
  {| df := dedup_by_day (merged_df (scan processed w));
     is_new_data := true;
     after := {| STATUS_FILE :=
                   Holds (Some (JObject (updated_processed (scan processed w))));
                 CACHE_DATA_FILE :=
                   Some (dedup_by_day (merged_df (scan processed w)));
                 DATA_DIR := DATA_DIR w |};
     log := shown (scan processed w)
            ++ [to_pickle (dedup_by_day (merged_df (scan processed w)));
                json_dump (updated_processed (scan processed w))] |}.
Proof. intros Hnew. unfold outcome. by rewrite Hnew. Qed.

Lemma outcome_old processed w :
  new_data_loaded (scan processed w) = false →
  outcome processed w =
  {| df := default [] (CACHE_DATA_FILE w);
     is_new_data := false;
     after := w;
     log := shown (scan processed w) |}.
Proof. intros Hnew. unfold outcome. by rewrite Hnew. Qed.

(** The ledger a run leaves behind. *)
Lemma ledger_of_after processed w :
  ledger_of w = Return processed →
  ledger_of (after (outcome processed w)) =
  Return (if new_data_loaded (scan processed w)
          then updated_processed (scan processed w) else processed).
Proof.
  intros Hl. unfold outcome. by destruct (new_data_loaded (scan processed w)).
Qed.

(** What a run leaves in the ledger under each name. *)
Lemma ledger_of_after_lookup processed w :
  ledger_of w = Return processed →
  ∃ persisted,
    ledger_of (after (outcome processed w)) = Return persisted ∧
    ∀ k, persisted !! k =
         match DATA_DIR w !! k with
         | Some v => if ingested processed (k, v) then Some v.1
                     else processed !! k
         | None => processed !! k
         end.
Proof.
  intros Hl. eexists. split; [by apply ledger_of_after|].
  intros k. destruct (new_data_loaded (scan processed w)) eqn:Hnew.
  - apply scan_updated_processed.
  - destruct (DATA_DIR w !! k) as [v|] eqn:Hk; [|done].
    destruct (ingested processed (k, v)) eqn:Hing; [|done].
    assert (new_data_loaded (scan processed w) = true) as Hyes
      by (apply scan_new_data_loaded; eauto).
    congruence.
Qed.

(** A second run over the same directory. *)
Lemma outcome_again processed w :
  ledger_of w = Return processed →
  let r := outcome processed w in
  ∃ r', load_and_merge_csv_files (after r) = Return r' ∧
        df r' = df r ∧ is_new_data r' = false ∧ after r' = after r ∧
        Forall (λ ev, is_write ev = false) (log r').
Proof.
  intros Hl r. subst r.
  destruct (new_data_loaded (scan processed w)) eqn:Hnew.
  - rewrite (outcome_new _ _ Hnew). simpl.
    set (w' := World _ _ _).
    exists (outcome (updated_processed (scan processed w)) w').
    assert (new_data_loaded (scan (updated_processed (scan processed w)) w')
            = false) as Hold by exact (scan_settles processed w).
    split; [by apply load_and_merge_csv_files_old|].
    rewrite (outcome_old _ _ Hold). simpl. split_and!; try done.
    apply scan_shown_no_write.
  - rewrite (outcome_old _ _ Hnew). simpl.
    exists (outcome processed w).
    split; [by apply load_and_merge_csv_files_old|].
    rewrite (outcome_old _ _ Hnew). simpl. split_and!; try done.
    apply scan_shown_no_write.
Qed.

End run_facts.

(** ** Claims on runs *)

Section run_claims.
Context `{SortValues}.

(** Names outlive their files: through any number of runs and changes to
    the data directory, a name the ledger holds stays in the ledger. *)
Lemma ledger_names_outlive_files w w' processed k :
  later_world w w' →
  ledger_of w = Return processed → is_Some (processed !! k) →
  ∃ persisted, ledger_of w' = Return persisted ∧ is_Some (persisted !! k).
Proof.
  intros Hlater. revert processed.
  induction Hlater as [w|w w' r Hrun _ IH|w w' dir _ IH]; intros processed Hl Hk.
  - eauto.
  - apply (load_and_merge_csv_files_Return w processed r Hl) in Hrun as ->.
    destruct (ledger_of_after_lookup processed w Hl) as (persisted & Hl' & Hp).
    apply (IH persisted Hl'). rewrite Hp.
    destruct (DATA_DIR w !! k) as [v|]; [|done].
    by destruct (ingested processed (k, v)).
  - by apply (IH processed).
Qed.

(** C7: a run that follows another with the data directory unchanged
    returns the frame the first one returned, reports no new data, leaves
    the ledger file and the snapshot file as they are, and writes to
    neither. *)
Theorem second_run_is_idle (w : world) (r : run) :
  load_and_merge_csv_files w = Return r →
  ∃ r', load_and_merge_csv_files (after r) = Return r' ∧
        df r' = df r ∧ is_new_data r' = false ∧ after r' = after r ∧
        Forall (λ ev, is_write ev = false) (log r').
Proof.
  intros Hrun.
  destruct (load_and_merge_csv_files_ledger w r Hrun) as [processed Hl].
  apply (load_and_merge_csv_files_Return w processed r Hl) in Hrun as ->. by apply outcome_again.
Qed.


(** C10: the ledger a run leaves behind holds every name the loaded ledger
    held; under a name that no file ingested in this run bears, and so
    under the name of a file that is gone from the data directory, it holds
    the same modification time; and it is what the run wrote, if it wrote
    the ledger. *)
Theorem ledger_keeps_entries (w : world) (processed : gmap string Z)
  (r : run) :
  ledger_of w = Return processed →
  load_and_merge_csv_files w = Return r →
  ∃ persisted,
    ledger_of (after r) = Return persisted ∧
    (is_new_data r = true → json_dump persisted ∈ log r) ∧
    ∀ k t, processed !! k = Some t →
      is_Some (persisted !! k) ∧
      ((∀ v, DATA_DIR w !! k = Some v → ingested processed (k, v) = false) →
       persisted !! k = Some t) ∧
      (DATA_DIR w !! k = None → persisted !! k = Some t).
Proof.
  intros Hl Hrun.
  apply (load_and_merge_csv_files_Return w processed r Hl) in Hrun as ->.
  destruct (ledger_of_after_lookup processed w Hl) as (persisted & Hl' & Hp).
  exists persisted. split_and!; [done| |].
  - rewrite ledger_of_after in Hl' by done. injection Hl' as <-.
    unfold outcome. destruct (new_data_loaded (scan processed w)); [|done].
    intros _. simpl. set_solver.
  - intros k t Hk. rewrite Hp. split_and!.
    + destruct (DATA_DIR w !! k) as [v|]; [|by rewrite Hk].
      destruct (ingested processed (k, v)); [done|by rewrite Hk].
    + intros Hno. destruct (DATA_DIR w !! k) as [v|]; [|done].
      by rewrite Hno.
    + by intros ->.
Qed.



(** When a run finds new data, what the snapshot held has no part in the
    result. *)
Lemma outcome_ignores_snapshot processed w cached :
  new_data_loaded (scan processed w) = true →
  outcome processed
    {| STATUS_FILE := STATUS_FILE w;
       CACHE_DATA_FILE := cached;
       DATA_DIR := DATA_DIR w |}
  = outcome processed w.
Proof.
  intros Hnew. rewrite (outcome_new _ w Hnew).
  by rewrite (outcome_new processed (World _ cached _) Hnew).
Qed.

(** C1, at the failing input: a.csv was ingested by an earlier run and its
    day is in the snapshot; b.csv is new.  The run returns, and saves as
    the new snapshot, the rows of b.csv alone: the day of a.csv is gone,
    while the ledger still records a.csv as processed. *)
Theorem snapshot_rows_are_dropped :
  ∃ r, load_and_merge_csv_files second_export_world = Return r ∧
       CACHE_DATA_FILE second_export_world = Some [(JAN_1_2024, morning)] ∧
       df r = [(JAN_1_2024 + 1, next_day)] ∧
       CACHE_DATA_FILE (after r) = Some [(JAN_1_2024 + 1, next_day)] ∧
       ledger_of (after r) = Return {["a.csv" := 100; "b.csv" := 200]}.
Proof.
  set (processed := {["a.csv" := 100]} : gmap string Z).
  assert (ledger_of second_export_world = Return processed) as Hl
    by reflexivity.
  assert (scan processed second_export_world =
          {| merged_df := [next_day];
             updated_processed := {["a.csv" := 100; "b.csv" := 200]};
             new_data_loaded := true;
             shown := [] |}) as Hscan
    by (vm_compute; reflexivity).
  assert (new_data_loaded (scan processed second_export_world) = true)
    as Hnew by (by rewrite Hscan).
  assert (dedup_by_day [next_day] = [(JAN_1_2024 + 1, next_day)]) as Hdedup.
  { rewrite dedup_by_day_grouped, sort_values_singleton.
    vm_compute. reflexivity. }
  exists (outcome processed second_export_world).
  split; [by apply load_and_merge_csv_files_outcome|].
  rewrite (outcome_new _ _ Hnew), Hscan.
  cbn [df after CACHE_DATA_FILE merged_df updated_processed].
  rewrite Hdedup. split_and!; reflexivity.
Qed.

End run_claims.

(** ** The claims at sample worlds *)

(** A second run over good.csv and bad.csv. *)
Lemma second_run_is_idle_witness :
  ∃ r', @load_and_merge_csv_files merge_sorter
          (after (@outcome merge_sorter ∅ good_and_bad_world)) = Return r' ∧
        df r' = df (@outcome merge_sorter ∅ good_and_bad_world) ∧
        is_new_data r' = false ∧
        after r' = after (@outcome merge_sorter ∅ good_and_bad_world) ∧
        Forall (λ ev, is_write ev = false) (log r').
Proof.
  apply (@second_run_is_idle merge_sorter good_and_bad_world).
  vm_compute. reflexivity.
Defined.


(** The entry of a.csv after the run that ingests b.csv. *)
Lemma ledger_keeps_entries_witness :
  ∃ persisted,
    ledger_of (after (@outcome merge_sorter {["a.csv" := 100]}
                        second_export_world)) = Return persisted ∧
    persisted !! "a.csv" = Some 100.
Proof.
  destruct (@ledger_keeps_entries merge_sorter second_export_world
              {["a.csv" := 100]}
              (@outcome merge_sorter {["a.csv" := 100]} second_export_world))
    as (persisted & Hl & _ & Hkeep).
  - reflexivity.
  - vm_compute. reflexivity.
  - exists persisted. split; [exact Hl|].
    destruct (Hkeep "a.csv" 100) as (_ & Hsame & _); [reflexivity|].
    apply Hsame. intros v Hv. vm_compute in Hv. injection Hv as <-.
    vm_compute. reflexivity.
Defined.


(** * Further properties *)

(** ** More on deduplication *)

Lemma coalesce_nil_l (cur : list cell) : coalesce [] cur = cur.
Proof. induction cur as [|[q|] cur IH]; simpl; by rewrite ?IH. Qed.

Lemma last_valid_singleton (r : row) : last_valid [r] = r.
Proof.
  destruct r as [[t|] cs]; unfold last_valid, later_valid; simpl;
    by rewrite coalesce_nil_l.
Qed.

Lemma length_remove_dups `{EqDecision A} (l : list A) :
  (length (remove_dups l) ≤ length l)%nat.
Proof.
  induction l as [|x l IH]; simpl; [done|]. case_decide; simpl; lia.
Qed.

Lemma length_group_keys (df : list (option Z * row)) :
  (length (group_keys df) ≤ length df)%nat.
Proof.
  unfold group_keys. rewrite merge_sort_Permutation.
  transitivity (length (omap fst df)).
  - apply length_remove_dups.
  - induction df as [|[[d|] r] df IH]; cbn in *; lia.
Qed.

Lemma group_keys_fixed (keys : list Z) (f : Z → row) :
  StronglySorted Z.lt keys →
  group_keys (map (λ d, (Some d, f d)) keys) = keys.
Proof.
  intros Hs. unfold group_keys.
  assert (omap fst (map (λ d, (Some d, f d)) keys) = keys) as ->.
  { clear Hs. induction keys as [|d keys IH]; [done|]. cbn. f_equal. exact IH. }
  assert (NoDup keys) as Hnd.
  { induction Hs as [|d keys _ IH Hd]; constructor; [|done].
    intros Hin. rewrite Forall_forall in Hd. specialize (Hd d Hin). lia. }
  apply (Sorted_unique Z.le).
  - apply (Sorted_merge_sort _).
  - apply StronglySorted_Sorted.
    rewrite <-(list_fmap_id keys). eapply StronglySorted_fmap; [|exact Hs].
    intros x y. simpl. lia.
  - rewrite merge_sort_Permutation. apply NoDup_Permutation; [apply NoDup_remove_dups|done|].
    intros x. apply elem_of_remove_dups.
Qed.

Lemma group_keys_sorted (df : list (option Z * row)) :
  StronglySorted Z.lt (omap fst df) → group_keys df = omap fst df.
Proof.
  intros Hs. unfold group_keys.
  assert (NoDup (omap fst df)) as Hnd.
  { induction Hs as [|d keys _ IH Hd]; constructor; [|done].
    intros Hin. rewrite Forall_forall in Hd. specialize (Hd d Hin). lia. }
  apply (Sorted_unique Z.le).
  - apply (Sorted_merge_sort _).
  - apply StronglySorted_Sorted.
    rewrite <-(list_fmap_id (omap fst df)).
    eapply StronglySorted_fmap; [|exact Hs].
    intros x y. simpl. lia.
  - rewrite merge_sort_Permutation.
    apply NoDup_Permutation; [apply NoDup_remove_dups|done|].
    intros x. apply elem_of_remove_dups.
Qed.

Lemma omap_fst_keyed (D : dataset) : omap fst (map keyed D) = D.*1.
Proof. induction D as [|x D IH]; [done|]. cbn. f_equal. exact IH. Qed.

Lemma group_of_cons (d : Z) (p : option Z * row) (df : list (option Z * row)) :
  group_of d (p :: df) =
  if decide (p.1 = Some d) then p.2 :: group_of d df else group_of d df.
Proof. unfold group_of. rewrite filter_cons. by case_decide. Qed.

Lemma group_of_keyed_absent (d : Z) (D : dataset) :
  Forall (λ y, d ≠ y.1) D → group_of d (map keyed D) = [].
Proof.
  induction 1 as [|y D Hy _ IH]; [done|].
  simpl. rewrite group_of_cons. simpl.
  rewrite decide_False by congruence. exact IH.
Qed.

Lemma groupby_last_keyed (D : dataset) :
  StronglySorted (λ x y, x.1 < y.1) D →
  map (λ d, (d, last_valid (group_of d (map keyed D)))) D.*1 = D.
Proof.
  induction 1 as [|x D Hs IH Hx]; [done|].
  rewrite fmap_cons. simpl. f_equal.
  - destruct x as [d r]. simpl. f_equal.
    rewrite group_of_cons. simpl. rewrite decide_True by done.
    rewrite group_of_keyed_absent; [apply last_valid_singleton|].
    eapply Forall_impl; [exact Hx|]. intros [e r'] Hy. simpl in *. intros ->. by apply Z.lt_irrefl in Hy.
  - rewrite <-IH at 2. apply Forall_fmap_ext_1.
    apply Forall_fmap. eapply Forall_impl; [exact Hx|].
    intros y Hy. simpl. rewrite group_of_cons. simpl.
    rewrite decide_False; [done|]. intros [= Heq]. rewrite Heq in Hy.
    by apply Z.lt_irrefl in Hy.
Qed.

Lemma StronglySorted_with {A} (R : relation A) (P : A → Prop) (l : list A) :
  StronglySorted R l → Forall P l →
  StronglySorted (λ x y, R x y ∧ P x ∧ P y) l.
Proof.
  induction 1 as [|x l Hl IH Hx]; intros HP; [constructor|].
  apply Forall_cons in HP as [Hpx HP]. constructor; [by apply IH|].
  rewrite Forall_forall in Hx, HP. apply Forall_forall. intros y Hy. auto.
Qed.

Lemma StronglySorted_key_inj (D : dataset) (x y : Z * row) :
  StronglySorted (λ x y, x.1 < y.1) D →
  x ∈ D → y ∈ D → x.1 = y.1 → x = y.
Proof.
  induction 1 as [|z D Hs IH Hz]; intros Hx Hy Hxy.
  { by apply not_elem_of_nil in Hx. }
  rewrite Forall_forall in Hz.
  apply elem_of_cons in Hx as [->|Hx], Hy as [->|Hy]; [done| | |by apply IH].
  - specialize (Hz _ Hy). rewrite Hxy in Hz. by apply Z.lt_irrefl in Hz.
  - specialize (Hz _ Hx). rewrite Hxy in Hz. by apply Z.lt_irrefl in Hz.
Qed.

Section dedup_fixpoint.
Context `{SortValues}.

Lemma dedup_by_day_valid (D : dataset) :
  valid_dataset D → dedup_by_day D.*2 = D.
Proof.
  intros [Hday Hs].
  assert (Forall (λ x, ∃ t, measured x.2 = Some t ∧ date t = x.1) D) as Hstamp.
  { eapply Forall_impl; [exact Hday|]. intros [d r]. simpl.
    destruct (measured r) as [t|]; intros; simplify_eq/=; eauto. }
  assert (sort_values measured D.*2 = D.*2) as Hsorted.
  { apply sort_values_id.
    - apply StronglySorted_Sorted.
      eapply StronglySorted_fmap;
        [|exact (StronglySorted_with _ _ _ Hs Hstamp)].
      intros x y (Hlt & (s & Hxs & Hsd) & (t & Hyt & Htd)). unfold key_le.
      rewrite Hxs, Hyt. simpl. apply Z.lt_le_incl, date_lt_inv.
      by rewrite Hsd, Htd.
    - rewrite Forall_forall in Hstamp.
      intros x y (x' & -> & Hx)%list_elem_of_fmap (y' & -> & Hy)%list_elem_of_fmap Hm.
      f_equal. apply (StronglySorted_key_inj D); [done..|].
      destruct (Hstamp _ Hx) as (s & Hxs & <-).
      destruct (Hstamp _ Hy) as (t & Hyt & <-).
      rewrite Hxs, Hyt in Hm. by simplify_eq. }
  rewrite dedup_by_day_grouped, Hsorted.
  assert (with_date D.*2 = map keyed D) as ->.
  { unfold with_date. rewrite <-list_fmap_compose. apply Forall_fmap_ext_1.
    eapply Forall_impl; [exact Hday|]. intros [d r] Hd. unfold keyed.
    simpl in *. by rewrite Hd. }
  unfold groupby_last. rewrite group_keys_sorted, omap_fst_keyed.
  - by apply groupby_last_keyed.
  - rewrite omap_fst_keyed. eapply StronglySorted_fmap; [|exact Hs]. done.
Qed.

(** What [dedup_by_day] returns is a frame of that kind. *)
Lemma dedup_by_day_is_valid (rows : list row) :
  valid_dataset (dedup_by_day rows).
Proof.
  rewrite dedup_by_day_grouped. set (sorted := sort_values measured rows).
  split.
  - apply Forall_forall. intros [d r] [Hd ->]%elem_of_groupby_last.
    destruct (last_valid_stamp d sorted Hd) as (t & Ht & <-).
    simpl. by rewrite Ht.
  - unfold groupby_last.
    eapply StronglySorted_fmap; [|apply group_keys_ascending]. done.
Qed.
End dedup_fixpoint.

(** The keys of a frame depend on its rows, not on their order. *)
Lemma group_keys_Permutation (df df' : list (option Z * row)) :
  df ≡ₚ df' → group_keys df = group_keys df'.
Proof.
  intros Hp. apply (Sorted_unique Z.le).
  - apply (Sorted_merge_sort _).
  - apply (Sorted_merge_sort _).
  - unfold group_keys. rewrite !merge_sort_Permutation.
    apply NoDup_Permutation; [apply NoDup_remove_dups..|].
    intros d. rewrite !elem_of_remove_dups, !list_elem_of_omap.
    by setoid_rewrite Hp.
Qed.

(** Frames with the same rows, in order of 測定日, have the same rows of a
    day in the same order, provided rows with equal date-times are equal. *)
Lemma day_rows_sorted_unique (d : Z) (l l' : list row) :
  (∀ x y, x ∈ l → y ∈ l → is_Some (measured x) →
          measured x = measured y → x = y) →
  Sorted (key_le measured) l → Sorted (key_le measured) l' → l ≡ₚ l' →
  day_rows d l = day_rows d l'.
Proof.
  intros Hinj Hl Hl' Hp.
  apply (StronglySorted_unique_strong (key_le measured)).
  - intros x y [Hdx Hx]%list_elem_of_filter [Hdy Hy]%list_elem_of_filter Hxy Hyx.
    apply Hinj; [done|by rewrite Hp| |by apply ts_le_antisym].
    destruct (measured x); [done|discriminate].
  - apply StronglySorted_filter, Sorted_StronglySorted; [apply _|done].
  - apply StronglySorted_filter, Sorted_StronglySorted; [apply _|done].
  - unfold day_rows. by rewrite Hp.
Qed.

(** X1: re-reading a frame that [dedup_by_day] produced gives that frame
    again, and more generally every frame with one row per day, consistent
    日付のみ and ascending days is returned as it is. *)
Theorem dedup_by_day_fixpoint `{SortValues} (D : dataset) (rows : list row) :
  (valid_dataset D → dedup_by_day D.*2 = D) ∧
  valid_dataset (dedup_by_day rows) ∧
  dedup_by_day (dedup_by_day rows).*2 = dedup_by_day rows.
Proof.
  split_and!.
  - apply dedup_by_day_valid.
  - apply dedup_by_day_is_valid.
  - apply dedup_by_day_valid, dedup_by_day_is_valid.
Qed.

(** X2: when no two dated rows of the merged frame carry the same
    date-time, the result depends neither on the order the rows come in nor
    on the sort. *)
Theorem dedup_by_day_order_free (S1 S2 : SortValues) (rows rows' : list row) :
  rows ≡ₚ rows' →
  (∀ x y, x ∈ rows → y ∈ rows → is_Some (measured x) →
          measured x = measured y → x = y) →
  @dedup_by_day S1 rows = @dedup_by_day S2 rows'.
Proof.
  intros Hp Hinj. rewrite !dedup_by_day_grouped.
  set (l := @sort_values S1 _ measured rows).
  set (l' := @sort_values S2 _ measured rows').
  assert (l ≡ₚ l') as Hll'.
  { unfold l, l'. by rewrite !sort_values_Permutation. }
  unfold groupby_last.
  rewrite (group_keys_Permutation (with_date l) (with_date l'))
    by (unfold with_date; by rewrite Hll').
  apply list_fmap_ext. intros _ d _. f_equal. f_equal.
  rewrite !group_of_with_date. apply day_rows_sorted_unique; [|apply sort_values_Sorted..|done].
  intros x y Hx%sort_values_elem_of Hy%sort_values_elem_of. by apply Hinj.
Qed.

(** Three readings at three date-times, forwards under one sort and
    backwards under the other. *)
Lemma dedup_by_day_order_free_witness :
  @dedup_by_day merge_sorter [morning; evening; next_day] =
  @dedup_by_day backward_sorter [next_day; evening; morning].
Proof.
  apply dedup_by_day_order_free.
  - exact (Permutation_rev [morning; evening; next_day]).
  - intros x y Hx Hy _ Hm. set_unfold.
    destruct Hx as [->|[->|[->|[]]]], Hy as [->|[->|[->|[]]]];
      try done; vm_compute in Hm; discriminate.
Defined.

Lemma length_omap_with_date (l : list row) :
  length (omap fst (with_date l)) = length (omap measured l).
Proof.
  induction l as [|[[t|] cs] l IH]; [done| |].
  - cbn. f_equal. exact IH.
  - cbn. exact IH.
Qed.

Section dedup_more.
Context `{SortValues}.

(** X3: the days of the result are exactly the days of the dated rows of
    the merged frame; rows without a date-time leave no trace; and the
    result has at most as many rows as the merged frame has dated rows. *)
Theorem dedup_by_day_days (rows : list row) :
  (∀ d, d ∈ (dedup_by_day rows).*1 ↔
        ∃ x t, x ∈ rows ∧ measured x = Some t ∧ date t = d) ∧
  (∀ d r, (d, r) ∈ dedup_by_day rows → is_Some (measured r)) ∧
  (length (dedup_by_day rows) ≤ length (omap measured rows))%nat.
Proof.
  rewrite dedup_by_day_grouped. split_and!.
  - intros d. rewrite groupby_last_keys, elem_of_group_keys.
    by setoid_rewrite sort_values_elem_of.
  - intros d r [Hd ->]%elem_of_groupby_last.
    destruct (last_valid_stamp d _ Hd) as (t & -> & _). done.
  - unfold groupby_last. rewrite length_fmap. unfold group_keys.
    rewrite merge_sort_Permutation.
    etrans; [apply length_remove_dups|].
    rewrite length_omap_with_date. by rewrite sort_values_Permutation.
Qed.

(** X4: in the result, each metric of a day is the last value of its
    column that is not missing among the day's rows in sorted order: a
    metric the latest reading lacks is taken from the most recent reading
    of the day that has it, and is missing only if all of them lack it. *)
Theorem dedup_by_day_fills_columns (rows : list row) (n j : nat)
  (d : Z) (r : row) :
  Forall (λ x, length (metrics x) = n) rows → (j < n)%nat →
  (d, r) ∈ dedup_by_day rows →
  length (metrics r) = n ∧
  metrics r !! j =
    Some (last_present j (day_rows d (sort_values measured rows))).
Proof.
  intros Hwidth Hj. rewrite dedup_by_day_grouped.
  intros [Hd ->]%elem_of_groupby_last.
  set (g := day_rows d (sort_values measured rows)).
  assert (Forall (λ x, length (metrics x) = n) g) as Hg.
  { apply Forall_forall. intros x [_ Hx%sort_values_elem_of]%list_elem_of_filter.
    rewrite Forall_forall in Hwidth. by apply Hwidth. }
  assert (g ≠ []) as Hne.
  { destruct (day_rows_last d _ Hd) as (g' & x & t & Hgx & _). fold g in Hgx.
    rewrite Hgx. by destruct g'. }
  pose proof (last_valid_width n g Hne Hg) as Hlen. split; [done|].
  rewrite <-(last_valid_column n g j Hg Hj).
  destruct (lookup_lt_is_Some_2 (metrics (last_valid g)) j) as [c ->]; [lia|].
  done.
Qed.

End dedup_more.

(** The body fat the evening reading lacks is the morning one. *)
Lemma dedup_by_day_fills_columns_witness :
  length (metrics blend) = 2%nat ∧
  metrics blend !! 1%nat =
    Some (last_present 1
            (day_rows JAN_1_2024
               (merge_sort_values measured [morning_full; evening_partial]))).
Proof.
  apply (@dedup_by_day_fills_columns merge_sorter
           [morning_full; evening_partial] 2 1 JAN_1_2024 blend).
  - repeat constructor.
  - lia.
  - vm_compute. by left.
Defined.

(** ** Files without the extension *)

Lemma foldl_loop_body_extension processed es st :
  foldl (loop_body processed) st es =
  foldl (loop_body processed) st (filter has_extension es).
Proof.
  revert st. induction es as [|e es IH]; intros st; [done|].
  rewrite filter_cons. simpl. case_decide as Hext.
  - simpl. apply IH.
  - rewrite <-IH. f_equal. destruct e as [fname [mtime content]].
    unfold has_extension in Hext. simpl in *.
    apply not_true_is_false in Hext. by rewrite Hext.
Qed.

Lemma name_le_antisym_in dir e e' :
  e ∈ sorted_listdir dir → e' ∈ sorted_listdir dir →
  name_le e e' → name_le e' e → e = e'.
Proof.
  destruct e as [k v], e' as [k' v'].
  intros Hk%elem_of_sorted_listdir Hk'%elem_of_sorted_listdir Hle Hge.
  unfold name_le in *. simpl in *.
  assert (k = k') as <- by (by apply (anti_symm String.le)).
  by simplify_eq.
Qed.

Lemma sorted_listdir_Sorted dir : Sorted name_le (sorted_listdir dir).
Proof. apply (Sorted_merge_sort _). Qed.

Lemma sorted_listdir_csv_part dir :
  filter has_extension (sorted_listdir dir) = sorted_listdir (csv_part dir).
Proof.
  apply (Sorted_unique_strong name_le).
  - intros e e' [_ He]%list_elem_of_filter He'. destruct e' as [k' v'].
    apply elem_of_sorted_listdir, map_lookup_filter_Some in He' as [He' _].
    apply elem_of_sorted_listdir in He'. by apply (name_le_antisym_in dir).
  - apply StronglySorted_Sorted, StronglySorted_filter, Sorted_StronglySorted;
      [apply _|apply sorted_listdir_Sorted].
  - apply sorted_listdir_Sorted.
  - apply NoDup_Permutation.
    + apply NoDup_filter. eapply NoDup_fmap_1, sorted_listdir_NoDup.
    + eapply NoDup_fmap_1, sorted_listdir_NoDup.
    + intros [k v]. rewrite list_elem_of_filter, !elem_of_sorted_listdir.
      unfold csv_part. rewrite map_lookup_filter_Some. unfold has_extension.
      simpl. tauto.
Qed.

Lemma scan_csv_part processed w :
  scan processed w =
  foldl (loop_body processed)
        {| merged_df := []; updated_processed := processed;
           new_data_loaded := false; shown := []; zones := [] |}
        (sorted_listdir (csv_part (DATA_DIR w))).
Proof.
  unfold scan. by rewrite foldl_loop_body_extension, sorted_listdir_csv_part.
Qed.

Section more_runs.
Context `{SortValues}.

(** X6: a run depends on the data directory only through the files that
    bear the extension: worlds with the same ledger file, the same
    snapshot and the same .csv files run alike, whatever else their
    directories hold. *)
Theorem other_files_are_ignored (w w' : world) :
  STATUS_FILE w = STATUS_FILE w' →
  CACHE_DATA_FILE w = CACHE_DATA_FILE w' →
  csv_part (DATA_DIR w) = csv_part (DATA_DIR w') →
  observe (load_and_merge_csv_files w) = observe (load_and_merge_csv_files w').
Proof.
  intros Hs Hc Hd.
  destruct (ledger_of w) as [processed|e] eqn:Hl.
  - assert (ledger_of w' = Return processed) as Hl'
      by (unfold ledger_of in *; by rewrite <-Hs).
    rewrite (load_and_merge_csv_files_loaded w processed Hl).
    rewrite (load_and_merge_csv_files_loaded w' processed Hl').
    assert (scan processed w = scan processed w') as Hscan
      by (by rewrite !scan_csv_part, Hd).
    rewrite <-Hscan. destruct (_ && _); [done|].
    simpl. f_equal.
    unfold observed, outcome. rewrite <-Hscan.
    destruct (new_data_loaded (scan processed w)); simpl; [done|].
    by rewrite Hs, Hc.
  - unfold load_and_merge_csv_files, ledger_of in *. rewrite <-Hs.
    destruct (load_processed_files (STATUS_FILE w)) as [data|e']; simpl in *;
      [|done].
    by destruct (dict_copy data).
Qed.

End more_runs.

(** ** More on runs *)


Lemma pending_spec processed k m c :
  pending processed (k, (m, c)) = true ↔
  endswith k ".csv" = true ∧ processed !! k ≠ Some m.
Proof.
  unfold pending. simpl.
  by rewrite andb_true_iff, negb_true_iff, already_processed_false.
Qed.

Lemma ingested_spec processed k m c :
  ingested processed (k, (m, c)) = true ↔
  endswith k ".csv" = true ∧ processed !! k ≠ Some m ∧
  ∃ rows, read_csv_with_dates c = Return rows.
Proof.
  split.
  - intros Hing. by apply ingested_inv in Hing.
  - intros (? & ? & rows & ?). by apply (ingested_intro _ _ _ rows).
Qed.

Lemma errors_from_spec processed k m c ev :
  ev ∈ errors_from processed (k, (m, c)) ↔
  endswith k ".csv" = true ∧ processed !! k ≠ Some m ∧
  ∃ e, read_csv_with_dates c = Raise e ∧ ev = st_error_read k e.
Proof.
  unfold errors_from. destruct (pending _ _) eqn:Hp.
  - apply pending_spec in Hp as [Hext Hnew]. simpl.
    destruct (read_csv_with_dates c) as [rows|e].
    + split; [by intros ?%not_elem_of_nil|]. by intros (_ & _ & e & ? & _).
    + rewrite list_elem_of_singleton. split; [intros ->; eauto|].
      by intros (_ & _ & e' & [= <-] & ->).
  - split; [by intros ?%not_elem_of_nil|]. intros (Hext & Hnew & _).
    apply not_true_iff_false in Hp. exfalso. apply Hp. by apply pending_spec.
Qed.

Section run_extras.
Context `{SortValues}.

(** X7: three ways in which the pipeline raises.  A ledger file that
    exists and cannot be opened raises OSError; a ledger file that holds a
    JSON value that is neither a list nor an object raises AttributeError
    at [processed.copy()]; and files that each parse raise TypeError at the
    sort of line 83, which stands outside the [try] block, when one of
    those read in the run holds a date-time with a zone and another a
    date-time without: the script then shows no page. *)
Theorem load_and_merge_csv_files_raises (w : world) :
  (STATUS_FILE w = Unopenable →
   load_and_merge_csv_files w = Raise OSError) ∧
  (STATUS_FILE w = Holds (Some JScalar) →
   load_and_merge_csv_files w = Raise AttributeError) ∧
  (∀ processed kn mn cn rows_n xn tn ka ma ca rows_a xa ta,
     ledger_of w = Return processed →
     DATA_DIR w !! kn = Some (mn, cn) → endswith kn ".csv" = true →
     processed !! kn ≠ Some mn → read_csv_with_dates cn = Return rows_n →
     xn ∈ rows_n → measured xn = Some tn → zone cn = Naive →
     DATA_DIR w !! ka = Some (ma, ca) → endswith ka ".csv" = true →
     processed !! ka ≠ Some ma → read_csv_with_dates ca = Return rows_a →
     xa ∈ rows_a → measured xa = Some ta → zone ca = Aware →
     load_and_merge_csv_files w = Raise TypeError ∧
     main w = Raise TypeError).
Proof.
  split_and!.
  - intros Hs. unfold load_and_merge_csv_files. by rewrite Hs.
  - intros Hs. unfold load_and_merge_csv_files. by rewrite Hs.
  - intros processed kn mn cn rows_n xn tn ka ma ca rows_a xa ta Hl
      Hkn Hextn Hnewn Hreadn Hxn Htn Hzn Hka Hexta Hnewa Hreada Hxa Hta Hza.
    assert (new_data_loaded (scan processed w) = true) as Hnew.
    { apply scan_new_data_loaded. exists kn, (mn, cn). split; [done|].
      apply ingested_spec. eauto. }
    assert (mixed (zones (scan processed w)) = true) as Hmixed.
    { apply bool_decide_eq_true. split; apply elem_of_scan_zones.
      - exists kn, mn, cn, rows_n, xn, tn. by split_and!.
      - exists ka, ma, ca, rows_a, xa, ta. by split_and!. }
    assert (load_and_merge_csv_files w = Raise TypeError) as Hrun
      by (by rewrite (load_and_merge_csv_files_loaded w processed Hl),
               Hnew, Hmixed).
    split; [done|]. unfold main. by rewrite Hrun.
Qed.

(** X8: a run writes exactly when it has read at least one pending file.
    Then it writes the snapshot and after it the ledger, once each, and the
    snapshot it leaves is the frame it returns; otherwise it returns what
    the snapshot holds, or an empty frame, and leaves the world as it is.
    The data directory is never changed. *)
Theorem run_writes_iff_ingested (w : world) (processed : gmap string Z)
  (r : run) :
  ledger_of w = Return processed →
  load_and_merge_csv_files w = Return r →
  (is_new_data r = true ↔
     ∃ k m c rows, DATA_DIR w !! k = Some (m, c) ∧
                   endswith k ".csv" = true ∧ processed !! k ≠ Some m ∧
                   read_csv_with_dates c = Return rows) ∧
  DATA_DIR (after r) = DATA_DIR w ∧
  ∃ diagnostics,
    Forall (λ ev, is_write ev = false) diagnostics ∧
    if is_new_data r
    then ∃ persisted,
           log r = diagnostics ++ [to_pickle (df r); json_dump persisted] ∧
           STATUS_FILE (after r) = Holds (Some (JObject persisted)) ∧
           CACHE_DATA_FILE (after r) = Some (df r)
    else log r = diagnostics ∧ after r = w ∧
         df r = default [] (CACHE_DATA_FILE w).
Proof.
  intros Hl Hrun.
  apply (load_and_merge_csv_files_Return w processed r Hl) in Hrun as ->.
  assert (new_data_loaded (scan processed w) = true ↔
          ∃ k m c rows, DATA_DIR w !! k = Some (m, c) ∧
                        endswith k ".csv" = true ∧ processed !! k ≠ Some m ∧
                        read_csv_with_dates c = Return rows) as Hiff.
  { rewrite scan_new_data_loaded. split.
    - intros (k & [m c] & Hk & (? & ? & rows & ?)%ingested_spec). eauto 10.
    - intros (k & m & c & rows & Hk & ? & ? & ?). exists k, (m, c).
      split; [done|]. apply ingested_spec. eauto. }
  destruct (new_data_loaded (scan processed w)) eqn:Hnew.
  - rewrite (outcome_new _ _ Hnew). simpl. split_and!; [done..|].
    exists (shown (scan processed w)). split; [apply scan_shown_no_write|].
    eauto.
  - rewrite (outcome_old _ _ Hnew). simpl. split_and!; [done..|].
    exists (shown (scan processed w)). split; [apply scan_shown_no_write|].
    done.
Qed.

(** X9: after a run, a file with the extension is still pending exactly
    when it was pending and could not be read: the next run tries the
    failing files again and no other.  The ledger has lost no name, and has
    gained those of the files read in this run and no other. *)
Theorem ledger_after_run (w : world) (processed : gmap string Z) (r : run) :
  ledger_of w = Return processed →
  load_and_merge_csv_files w = Return r →
  ∃ persisted,
    ledger_of (after r) = Return persisted ∧
    (∀ k m c, DATA_DIR w !! k = Some (m, c) →
       (pending persisted (k, (m, c)) = true ↔
        pending processed (k, (m, c)) = true ∧
        ∃ e, read_csv_with_dates c = Raise e)) ∧
    (∀ k, is_Some (persisted !! k) ↔
          is_Some (processed !! k) ∨
          ∃ v, DATA_DIR w !! k = Some v ∧ ingested processed (k, v) = true).
Proof.
  intros Hl Hrun.
  apply (load_and_merge_csv_files_Return w processed r Hl) in Hrun as ->.
  destruct (ledger_of_after_lookup processed w Hl) as (persisted & Hl' & Hp).
  exists persisted. split_and!; [done| |].
  - intros k m c Hk. rewrite !pending_spec.
    specialize (Hp k). rewrite Hk in Hp.
    destruct (ingested processed (k, (m, c))) eqn:Hing.
    + apply ingested_spec in Hing as (Hext & Hnew & rows & Hread).
      rewrite Hp. simpl. split; [by intros [_ ?]|].
      intros [_ [e He]]. congruence.
    + rewrite Hp. split.
      * intros [Hext Hnew]. split; [done|].
        destruct (read_csv_with_dates c) as [rows|e] eqn:Hread; [|eauto].
        assert (ingested processed (k, (m, c)) = true) as Hyes
          by (apply ingested_spec; eauto).
        congruence.
      * by intros [? _].
  - intros k. rewrite Hp. destruct (DATA_DIR w !! k) as [v|] eqn:Hk.
    + destruct (ingested processed (k, v)) eqn:Hing.
      * split; [eauto|done].
      * split; [auto|]. intros [?|(v' & [= <-] & ?)]; [done|congruence].
    + split; [auto|]. by intros [?|(v' & ? & _)].
Qed.

End run_extras.

(** ** Diagnostics *)

Lemma StronglySorted_omap {A B} (R : relation A) (R' : relation B)
  (f : A → option B) (l : list A) :
  (∀ x y a b, R x y → f x = Some a → f y = Some b → R' a b) →
  StronglySorted R l → StronglySorted R' (omap f l).
Proof.
  intros Hf. induction 1 as [|x l Hl IH Hx]; [constructor|].
  cbn. destruct (f x) as [a|] eqn:Hfx; [|done].
  constructor; [done|]. apply Forall_forall.
  intros b (y & Hy & Hfy)%list_elem_of_omap.
  rewrite Forall_forall in Hx. eauto.
Qed.

Lemma sorted_listdir_ascending dir :
  StronglySorted (λ e e', strict String.le e.1 e'.1) (sorted_listdir dir).
Proof.
  pose proof (sorted_listdir_NoDup dir) as Hnd.
  pose proof (sorted_listdir_Sorted dir) as Hs.
  apply (Sorted_StronglySorted _) in Hs.
  induction Hs as [|e es Hes IH He]; [constructor|].
  rewrite fmap_cons in Hnd. apply NoDup_cons in Hnd as [Hfresh Hnd].
  constructor; [by apply IH|].
  rewrite Forall_forall in He. apply Forall_forall. intros e' He'.
  apply strict_spec_alt. split; [by apply He|].
  intros Heq. apply Hfresh. rewrite Heq. by apply list_elem_of_fmap_2.
Qed.

Lemma diagnosed_errors processed es :
  omap diagnosed (es ≫= errors_from processed) =
  omap (λ e, if pending processed e && negb (readable e.2.2)
             then Some e.1 else None) es.
Proof.
  induction es as [|e es IH]; [done|].
  rewrite bind_cons, omap_app, IH. cbn. f_equal.
  unfold errors_from, readable. destruct (pending processed e); simpl; [|done].
  by destruct (read_csv_with_dates e.2.2).
Qed.

Lemma diagnosed_writes (l : list event) (d : dataset) (m : gmap string Z) :
  omap diagnosed (l ++ [to_pickle d; json_dump m]) = omap diagnosed l.
Proof. rewrite omap_app. cbn. apply app_nil_r. Qed.

Section diagnostics.
Context `{SortValues}.

(** X10: a run shows a diagnostic for a file exactly when the file bears
    the extension, is pending and raises on reading, with the error it
    raised; the diagnostics come in ascending order of file name, one per
    file. *)
Theorem diagnostics_name_failing_files (w : world)
  (processed : gmap string Z) (r : run) :
  ledger_of w = Return processed →
  load_and_merge_csv_files w = Return r →
  (∀ k e, st_error_read k e ∈ log r ↔
     ∃ m c, DATA_DIR w !! k = Some (m, c) ∧ endswith k ".csv" = true ∧
            processed !! k ≠ Some m ∧ read_csv_with_dates c = Raise e) ∧
  StronglySorted (strict String.le) (omap diagnosed (log r)).
Proof.
  intros Hl Hrun.
  apply (load_and_merge_csv_files_Return w processed r Hl) in Hrun as ->.
  assert (∀ k e, st_error_read k e ∈ shown (scan processed w) ↔
     ∃ m c, DATA_DIR w !! k = Some (m, c) ∧ endswith k ".csv" = true ∧
            processed !! k ≠ Some m ∧ read_csv_with_dates c = Raise e) as Hshown.
  { intros k e. rewrite elem_of_scan_shown. split.
    - intros (k' & [m c] & Hk & (? & ? & e' & ? & [= <- <-])%errors_from_spec).
      eauto 10.
    - intros (m & c & Hk & ? & ? & ?). exists k, (m, c). split; [done|].
      apply errors_from_spec. eauto 10. }
  assert (StronglySorted (strict String.le)
            (omap diagnosed (shown (scan processed w)))) as Hsorted.
  { rewrite scan_shown, diagnosed_errors.
    eapply StronglySorted_omap; [|apply sorted_listdir_ascending].
    intros x y a b Hxy Hx Hy. simpl in *.
    destruct (pending processed x && negb (readable x.2.2)); [|done].
    destruct (pending processed y && negb (readable y.2.2)); [|done].
    by simplify_eq. }
  unfold outcome. destruct (new_data_loaded (scan processed w)); simpl.
  - split; [|by rewrite diagnosed_writes].
    intros k e. rewrite <-Hshown, elem_of_app. split; [|auto].
    intros [?|Hw]; [done|]. set_unfold. by destruct Hw as [?|[?|[]]].
  - done.
Qed.

End diagnostics.

(** ** The page *)

Section page_facts.
Context `{SortValues}.

Lemma main_outcome w processed :
  ledger_of w = Return processed →
  new_data_loaded (scan processed w) && mixed (zones (scan processed w))
    = false →
  main w =
  Return (let r := outcome processed w in
          if empty (df r)
          then {| messages := log r ++ [st_error_no_valid_data; st_stop];
                  analysed := None;
                  disk := after r |}
          else {| messages := log r ++ [if is_new_data r then st_success
                                        else st_info];
                  analysed := Some (df r);
                  disk := after r |}).
Proof.
  intros Hl Hz. unfold main.
  rewrite (load_and_merge_csv_files_loaded w processed Hl), Hz. simpl.
  by destruct (empty (df (outcome processed w))).
Qed.



(** X12: when a run reads no file and the snapshot holds a frame with
    rows, the page ends on the note that earlier data is shown, the
    analysis receives the frame of the snapshot as it is, and nothing is
    written. *)
Theorem main_reuses_snapshot (w : world) (processed : gmap string Z)
  (cached : dataset) :
  ledger_of w = Return processed →
  CACHE_DATA_FILE w = Some cached → cached ≠ [] →
  (∀ k m c, DATA_DIR w !! k = Some (m, c) →
     endswith k ".csv" = false ∨ processed !! k = Some m ∨
     ∃ e, read_csv_with_dates c = Raise e) →
  ∃ diagnostics,
    Forall (λ ev, is_write ev = false) diagnostics ∧
    main w = Return {| messages := diagnostics ++ [st_info];
                       analysed := Some cached;
                       disk := w |}.
Proof.
  intros Hl Hc Hne Hdir.
  assert (new_data_loaded (scan processed w) = false) as Hold.
  { apply not_true_is_false.
    intros (k & [m c] & Hk & (? & ? & rows & ?)%ingested_spec)%scan_new_data_loaded.
    destruct (Hdir k m c Hk) as [?|[?|[e ?]]]; congruence. }
  exists (shown (scan processed w)). split; [apply scan_shown_no_write|].
  rewrite (main_outcome w processed Hl) by (by rewrite Hold).
  rewrite (outcome_old _ _ Hold). simpl.
  rewrite Hc. simpl. by destruct cached.
Qed.


End page_facts.


Lemma up_to_NaT (df : dataset) : up_to None df = [].
Proof.
  apply elem_of_nil_inv. intros x [Hx _]%list_elem_of_filter.
  unfold on_or_before in Hx. by destruct (measured x.2).
Qed.

Lemma elem_of_up_to (t : timestamp) (df : dataset) (x : Z * row) :
  x ∈ up_to (Some t) df ↔ x ∈ df ∧ ∃ s, measured x.2 = Some s ∧ s ≤ t.
Proof.
  unfold up_to. rewrite list_elem_of_filter. unfold on_or_before.
  destruct (measured x.2) as [s|].
  - rewrite Z.leb_le. split; [intros [? ?]; eauto|].
    intros [? (s' & [= <-] & ?)]. done.
  - split; [by intros [? _]|]. by intros [_ (s & ? & _)].
Qed.

Lemma length_tail5 {A} (l : list A) : length (tail5 l) = (length l `min` 5)%nat.
Proof. unfold tail5. rewrite length_drop. lia. Qed.

Lemma foldr_max_ge (t0 : Z) (ts : list Z) (t : Z) :
  t ∈ t0 :: ts → t ≤ foldr Z.max t0 ts.
Proof.
  induction ts as [|t1 ts IH]; simpl.
  - intros ->%list_elem_of_singleton. lia.
  - intros Hin. apply elem_of_cons in Hin as [->|Hin].
    + assert (t0 ≤ foldr Z.max t0 ts) by (apply IH; by left). lia.
    + apply elem_of_cons in Hin as [->|Hin]; [lia|].
      assert (t ≤ foldr Z.max t0 ts) by (apply IH; by right). lia.
Qed.

Lemma latest_date_ge (df : dataset) (x : Z * row) (t : timestamp) :
  x ∈ df → measured x.2 = Some t →
  ∃ m, latest_date df = Some m ∧ t ≤ m.
Proof.
  intros Hx Ht. unfold latest_date.
  assert (t ∈ omap (λ x, measured x.2) df) as Hin
    by (apply list_elem_of_omap; eauto).
  destruct (omap (λ x, measured x.2) df) as [|t0 ts];
    [by apply not_elem_of_nil in Hin|].
  eexists. split; [done|]. by apply foldr_max_ge.
Qed.

Lemma length_filter_mono {A} (P Q : A → Prop) `{∀ x, Decision (P x)}
  `{∀ x, Decision (Q x)} (l : list A) :
  (∀ x, x ∈ l → P x → Q x) →
  (length (filter P l) ≤ length (filter Q l))%nat.
Proof.
  induction l as [|x l IH]; intros HPQ; [done|].
  rewrite !filter_cons.
  assert (length (filter P l) ≤ length (filter Q l))%nat as Hle.
  { apply IH. intros y Hy. apply HPQ. by right. }
  destruct (decide (P x)) as [HP|HP].
  - rewrite decide_True by (apply HPQ; [by left|done]). simpl. lia.
  - destruct (decide (Q x)); simpl; lia.
Qed.

Lemma length_up_to_mono (s t : timestamp) (df : dataset) :
  s ≤ t → (length (up_to (Some s) df) ≤ length (up_to (Some t) df))%nat.
Proof.
  intros Hst. apply length_filter_mono. intros x _.
  unfold on_or_before. destruct (measured x.2) as [u|]; [|done].
  rewrite !Z.leb_le. lia.
Qed.

Section change_rate_facts.
Context {num : Type}.
Context (mean : list cell → num).
Context (is_zero : num → bool).
Context (rate : num → num → num).

Lemma change_at_Some (df : dataset) (j : nat) (d d' : option timestamp)
  (c : num) :
  change_at mean is_zero rate df j d = Some (d', c) →
  ∃ t, d = Some t ∧ d' = Some t ∧
       (5 ≤ length (up_to (Some t) df))%nat ∧
       (5 ≤ length (up_to (month_before (Some t)) df))%nat ∧
       is_zero (mean (column j (tail5 (up_to (month_before (Some t)) df))))
         = false ∧
       c = rate (mean (column j (tail5 (up_to (Some t) df))))
                (mean (column j (tail5 (up_to (month_before (Some t)) df)))).
Proof.
  unfold change_at. destruct d as [t|]; simpl.
  - rewrite !length_tail5.
    destruct (_ || _) eqn:Hshort; [done|].
    apply orb_false_iff in Hshort as [Hr%Nat.ltb_ge Hp%Nat.ltb_ge].
    destruct (is_zero _) eqn:Hz; [done|]. intros [= <- <-].
    exists t. split_and!; try done; lia.
  - rewrite up_to_NaT. done.
Qed.

(** X14: the points of the change-rate chart.  Their dates are dates of
    rows of the frame, in the order of the frame; a date gets a point only
    if at least five rows are dated on or before it and at least five rows
    are dated thirty days or more before it, and if the mean of the latter
    is not zero; the point is the rate of the means over the last five rows
    of each kind. *)
Theorem change_series_points (df : dataset) (j : nat) :
  (change_series mean is_zero rate df j).*1
    `sublist_of` map (λ x, measured x.2) df ∧
  ∀ d c, (d, c) ∈ change_series mean is_zero rate df j →
    ∃ t, d = Some t ∧
         (5 ≤ length (up_to (Some t) df))%nat ∧
         (5 ≤ length (up_to (month_before (Some t)) df))%nat ∧
         is_zero (mean (column j (tail5 (up_to (month_before (Some t)) df))))
           = false ∧
         c = rate (mean (column j (tail5 (up_to (Some t) df))))
                  (mean (column j (tail5 (up_to (month_before (Some t)) df)))).
Proof.
  split.
  - unfold change_series. generalize df at 1 as whole.
    intros whole. induction df as [|x df IH]; [done|].
    cbn. destruct (change_at _ _ _ whole j (measured x.2)) as [[d c]|] eqn:Hx.
    + apply change_at_Some in Hx as (t & -> & -> & _). simpl.
      by apply sublist_skip.
    + by apply sublist_cons.
  - intros d c (x & _ & Hx)%list_elem_of_omap.
    apply change_at_Some in Hx as (t & _ & -> & ?). eauto.
Qed.

(** X15: when fewer than five rows of the frame are dated thirty days or
    more before its latest date, no date gets a point and the page shows,
    for every column, the note that the data do not suffice. *)
Theorem change_panel_needs_history (df : dataset) (j : nat) :
  (length (up_to (month_before (latest_date df)) df) < 5)%nat →
  change_panel mean is_zero rate df j = NotEnoughData.
Proof.
  intros Hshort. unfold change_panel.
  destruct (change_series mean is_zero rate df j) as [|[d c] s] eqn:Hs; [done|].
  assert ((d, c) ∈ change_series mean is_zero rate df j) as Hin
    by (rewrite Hs; by left).
  apply list_elem_of_omap in Hin as (x & Hx & Hat).
  apply change_at_Some in Hat as (t & Ht & _ & _ & Hpast & _).
  destruct (latest_date_ge df x t Hx Ht) as (m & Hm & Htm).
  rewrite Hm in Hshort. unfold month_before in *. simpl in *.
  assert (t - THIRTY_DAYS ≤ m - THIRTY_DAYS) as Hle by lia.
  pose proof (length_up_to_mono _ _ df Hle) as Hmono.
  exfalso. apply (Nat.lt_irrefl 5).
  eapply Nat.le_lt_trans; [exact Hpast|].
  eapply Nat.le_lt_trans; [exact Hmono|exact Hshort].
Qed.

End change_rate_facts.

Lemma filter_ext_in {A} (P Q : A → Prop) `{∀ x, Decision (P x)}
  `{∀ x, Decision (Q x)} (l : list A) :
  (∀ x, x ∈ l → P x ↔ Q x) → filter P l = filter Q l.
Proof.
  induction l as [|x l IH]; intros HPQ; [done|].
  rewrite !filter_cons.
  rewrite IH by (intros y Hy; apply HPQ; by right).
  destruct (decide (P x)) as [HP|HP].
  - rewrite decide_True; [done|]. apply HPQ; [by left|done].
  - rewrite decide_False; [done|]. intros HQ. apply HP, HPQ; [by left|done].
Qed.

Lemma up_to_latest_date (df : dataset) :
  up_to (latest_date df) df = filter (λ x, is_Some (measured x.2)) df.
Proof.
  apply filter_ext_in. intros x Hx. unfold on_or_before.
  destruct (measured x.2) as [t|] eqn:Ht.
  - destruct (latest_date_ge df x t Hx Ht) as (m & -> & Htm).
    split; [done|]. intros _. by apply Z.leb_le.
  - split; [done|]. by intros [? ?].
Qed.

Lemma filter_all {A} (P : A → Prop) `{∀ x, Decision (P x)} (l : list A) :
  Forall P l → filter P l = l.
Proof.
  induction 1 as [|x l Hx _ IH]; [done|].
  by rewrite filter_cons, decide_True, IH.
Qed.

(** X16: the recent average of lines 117-118 is taken over the last five
    dated rows of the frame, that is, over the last five rows of a frame
    in which every row has a date-time, as every frame of [dedup_by_day]
    is; the month-ago average of lines 119-120 is taken over rows dated
    thirty days or more before the latest date. *)
Theorem recent_window_last_five `{SortValues} (df : dataset)
  (rows : list row) :
  recent_window df = tail5 (filter (λ x, is_Some (measured x.2)) df) ∧
  (Forall (λ x, is_Some (measured x.2)) df → recent_window df = tail5 df) ∧
  recent_window (dedup_by_day rows) = tail5 (dedup_by_day rows) ∧
  ∀ x, x ∈ past_window df →
       ∃ s m, measured x.2 = Some s ∧ latest_date df = Some m ∧
              s + THIRTY_DAYS ≤ m.
Proof.
  unfold recent_window. split_and!.
  - by rewrite up_to_latest_date.
  - intros Hall. rewrite up_to_latest_date. f_equal. by apply filter_all.
  - rewrite up_to_latest_date. f_equal. apply filter_all.
    destruct (dedup_by_day_is_valid rows) as [Hday _].
    eapply Forall_impl; [exact Hday|]. intros [d r]. simpl.
    destruct (measured r); [done|discriminate].
  - intros x Hx. unfold past_window, tail5 in Hx.
    pose proof (elem_of_sublist _ _ _ Hx (sublist_drop _ _)) as Hx'.
    clear Hx. rename Hx' into Hx.
    destruct (latest_date df) as [m|]; simpl in Hx.
    + apply elem_of_up_to in Hx as (_ & s & Hs & Hle).
      exists s, m. split_and!; [done..|lia].
    + rewrite up_to_NaT in Hx. by apply not_elem_of_nil in Hx.
Qed.

(** ** The extension *)

Lemma substring_whole (s : string) :
  String.substring 0 (String.length s) s = s.
Proof. induction s as [|b s IH]; simpl; [done|]. by rewrite IH. Qed.

Lemma substring_append_r (p s : string) :
  String.substring (String.length p) (String.length s) (p +:+ s) = s.
Proof.
  induction p as [|a p IH]; simpl; [apply substring_whole|exact IH].
Qed.

Lemma substring_split (n : nat) (s : string) :
  (n ≤ String.length s)%nat →
  s = String.substring 0 n s +:+
      String.substring n (String.length s - n) s.
Proof.
  revert s. induction n as [|n IH]; intros s Hn.
  - rewrite Nat.sub_0_r, substring_whole. by destruct s.
  - destruct s as [|a s]; simpl in *; [lia|].
    change (String a s =
            String a (String.substring 0 n s
                      +:+ String.substring n (String.length s - n) s)).
    f_equal. apply IH. lia.
Qed.

Lemma string_length_append (p s : string) :
  String.length (p +:+ s) = (String.length p + String.length s)%nat.
Proof. induction p as [|a p IH]; simpl; [done|]. by rewrite IH. Qed.

(** [endswith] is the test for a suffix. *)
Lemma endswith_spec (s suffix : string) :
  endswith s suffix = true ↔ ∃ p, s = p +:+ suffix.
Proof.
  unfold endswith. rewrite andb_true_iff, Nat.leb_le, String.eqb_eq. split.
  - intros [Hlen Hsub].
    exists (String.substring 0 (String.length s - String.length suffix) s).
    pose proof (substring_split (String.length s - String.length suffix) s)
      as Hsplit.
    replace (String.length s - (String.length s - String.length suffix))%nat
      with (String.length suffix) in Hsplit by lia.
    rewrite Hsub in Hsplit. apply Hsplit. lia.
  - intros [p ->]. rewrite string_length_append. split; [lia|].
    replace (String.length p + String.length suffix - String.length suffix)%nat
      with (String.length p) by lia.
    apply substring_append_r.
Qed.

(** X17: the test of line 65 holds for a name exactly when the name is
    some text followed by ".csv", the bare name ".csv" included and with
    the case of the letters as written; any other entry of the directory
    leaves the loop as it found it. *)
Theorem extension_is_a_suffix_test (processed : gmap string Z)
  (st : loop_state) (fname : string) (mtime : Z) (content : csv_file) :
  (endswith fname ".csv" = true ↔ ∃ p, fname = p +:+ ".csv") ∧
  endswith ".csv" ".csv" = true ∧
  endswith "A.CSV" ".csv" = false ∧
  ((¬ ∃ p, fname = p +:+ ".csv") →
   loop_body processed st (fname, (mtime, content)) = st).
Proof.
  split_and!; [apply endswith_spec|done|done|].
  intros Hno. unfold loop_body.
  destruct (endswith fname ".csv") eqn:Hext; [|done].
  by apply endswith_spec in Hext.
Qed.

(** ** The further properties at sample worlds *)

(** notes.txt beside good.csv and bad.csv changes nothing. *)
Lemma other_files_are_ignored_witness :
  observe (@load_and_merge_csv_files merge_sorter cluttered_world) =
  observe (@load_and_merge_csv_files merge_sorter good_and_bad_world).
Proof.
  apply (@other_files_are_ignored merge_sorter).
  - reflexivity.
  - reflexivity.
  - vm_compute. reflexivity.
Defined.

(** a.csv holds a date-time without zone, b.csv one with a zone: the run
    raises, and so does the script. *)
Lemma load_and_merge_csv_files_raises_witness :
  @load_and_merge_csv_files merge_sorter mixed_zone_world = Raise TypeError ∧
  @main merge_sorter mixed_zone_world = Raise TypeError.
Proof.
  destruct (@load_and_merge_csv_files_raises merge_sorter mixed_zone_world)
    as (_ & _ & Hmixed).
  apply (Hmixed ∅
           "a.csv" 100 (Table [line_of morning]) [morning] morning
           (at_hour JAN_1_2024 8)
           "b.csv" 200 (ZonedTable [line_of next_day]) [next_day] next_day
           (at_hour (JAN_1_2024 + 1) 8)).
  - reflexivity.
  - vm_compute. reflexivity.
  - reflexivity.
  - discriminate.
  - reflexivity.
  - by left.
  - reflexivity.
  - reflexivity.
  - vm_compute. reflexivity.
  - reflexivity.
  - discriminate.
  - reflexivity.
  - by left.
  - reflexivity.
  - reflexivity.
Defined.

(** The run over good.csv and bad.csv leaves the directory alone. *)
Lemma run_writes_iff_ingested_witness :
  DATA_DIR (after (@outcome merge_sorter ∅ good_and_bad_world))
  = DATA_DIR good_and_bad_world.
Proof.
  destruct (@run_writes_iff_ingested merge_sorter good_and_bad_world ∅
              (@outcome merge_sorter ∅ good_and_bad_world))
    as (_ & Hdir & _).
  - reflexivity.
  - vm_compute. reflexivity.
  - exact Hdir.
Defined.

(** After that run bad.csv is pending and good.csv is not. *)
Lemma ledger_after_run_witness :
  ∃ persisted,
    ledger_of (after (@outcome merge_sorter ∅ good_and_bad_world))
      = Return persisted ∧
    pending persisted ("bad.csv", (200, TableWithoutDate [[Some 60.0%Q]]))
      = true ∧
    pending persisted ("good.csv", (100, Table [line_of morning])) = false.
Proof.
  destruct (@ledger_after_run merge_sorter good_and_bad_world ∅
              (@outcome merge_sorter ∅ good_and_bad_world))
    as (persisted & Hl & Hpending & _).
  - reflexivity.
  - vm_compute. reflexivity.
  - exists persisted. split; [exact Hl|]. split.
    + apply Hpending; [reflexivity|]. split; [reflexivity|].
      exists KeyError. reflexivity.
    + apply not_true_is_false. intros Hp.
      apply Hpending in Hp as [_ [e He]]; [discriminate He|reflexivity].
Defined.

(** The diagnostic of that run. *)
Lemma diagnostics_name_failing_files_witness :
  st_error_read "bad.csv" KeyError
    ∈ log (@outcome merge_sorter ∅ good_and_bad_world).
Proof.
  destruct (@diagnostics_name_failing_files merge_sorter good_and_bad_world ∅
              (@outcome merge_sorter ∅ good_and_bad_world))
    as [Hiff _].
  - reflexivity.
  - vm_compute. reflexivity.
  - apply Hiff. exists 200, (TableWithoutDate [[Some 60.0%Q]]).
    split_and!; [reflexivity|reflexivity|discriminate|reflexivity].
Defined.


(** The page when a.csv is unchanged. *)
Lemma main_reuses_snapshot_witness :
  ∃ diagnostics,
    Forall (λ ev, is_write ev = false) diagnostics ∧
    @main merge_sorter settled_world =
      Return {| messages := diagnostics ++ [st_info];
                analysed := Some [(JAN_1_2024, morning)];
                disk := settled_world |}.
Proof.
  apply (@main_reuses_snapshot merge_sorter settled_world {["a.csv" := 100]}).
  - reflexivity.
  - reflexivity.
  - discriminate.
  - intros k m c Hk. right. left.
    destruct (decide (k = "a.csv")) as [->|Hne].
    + vm_compute in Hk. injection Hk as <- _. reflexivity.
    + unfold settled_world in Hk. simpl in Hk.
      by rewrite lookup_singleton_ne in Hk.
Defined.


(** Two readings a day apart give no chart. *)
Lemma change_panel_needs_history_witness :
  change_panel exact_mean exact_is_zero exact_rate
    [(JAN_1_2024, morning); (JAN_1_2024 + 1, next_day)] 0
  = NotEnoughData.
Proof.
  apply change_panel_needs_history. vm_compute. lia.
Defined.
